(** * Earthquake visualizer: filter-and-aggregate pipeline of [src/pages/CoreMap.jsx]

    A shallow embedding of the logic of the [CoreMap] component: the event
    filter ([filteredEarthquakes]), the statistics of the explanation panel
    ([ExplanationPanel.stats]), the boundary decoration ([fetchPlates],
    [getRandomBoundaryType]), the geocoder guard ([handleSearch]) and the
    state updates performed by the asynchronous callbacks.

    Numbers.  A JavaScript number that comes out of [JSON.parse] or of a
    range slider is a finite double, hence a rational: finite numbers are
    modelled as [Q], and the comparisons [<], [<=], [>=] on them are the
    exact ones.  [NaN] and the infinities are separate constructors.  The
    sign of zero is not modelled.

    Strings.  A string is a [string] of the standard library, one character
    per code unit.

    Host functions.  What the program leaves to the JavaScript engine and
    cannot be written out here is a parameter of the definitions that call
    it: [String.prototype.toLowerCase] ([toLowerCase]), the product, sum and
    quotient of doubles ([fmul], [fadd], [fdiv]) and [toFixed(2)].  A
    theorem holds for every such function, or names what it needs of it.
    The product of doubles is also written out ([Double.mul]: the exact
    product rounded to the nearest double, ties to even), and what the
    theorems need of the product is proved of it. *)

From Stdlib Require Import List String Ascii Bool Arith ZArith QArith Lia.
From Stdlib Require Import Qround Qpower Permutation Sorted DecimalString.
From Stdlib Require DecimalFacts DecimalN.
Import ListNotations.

Local Open Scope list_scope.

(* ------------------------------------------------------------------ *)
(** ** JavaScript values read from the feeds *)

Module JS.

(** A JavaScript number. *)
Inductive number : Type :=
| Fin (q : Q)
| NaN
| PosInf
| NegInf.

(** What a numeric property of a feed record can hold: a JSON number,
    JSON [null], or [undefined] when the property (or the array slot) is
    absent. *)
Inductive value : Type :=
| VNum (q : Q)
| VNull
| VUndefined.

(** [ToNumber]: [null] converts to [+0], [undefined] to [NaN]. *)
Definition ToNumber (v : value) : number :=
  match v with
  | VNum q => Fin q
  | VNull => Fin 0
  | VUndefined => NaN
  end.

Definition Qltb (x y : Q) : bool := negb (Qle_bool y x).

(** The comparison [x < y] of two numbers; [None] is the [undefined]
    result that a [NaN] operand produces. *)
Definition num_lt (x y : number) : option bool :=
  match x, y with
  | NaN, _ | _, NaN => None
  | Fin a, Fin b => Some (Qltb a b)
  | PosInf, _ => Some false
  | _, PosInf => Some true
  | _, NegInf => Some false
  | NegInf, _ => Some true
  end.

(** [a < b]: true only when the comparison yields [true]. *)
Definition lt (a b : value) : bool :=
  match num_lt (ToNumber a) (ToNumber b) with
  | Some true => true
  | _ => false
  end.

(** [a >= b]: the comparison [a < b] yields [false] (and not [undefined]). *)
Definition ge (a b : value) : bool :=
  match num_lt (ToNumber a) (ToNumber b) with
  | Some false => true
  | _ => false
  end.

(** [a <= b]: the comparison [b < a] yields [false] (and not [undefined]). *)
Definition le (a b : value) : bool :=
  match num_lt (ToNumber b) (ToNumber a) with
  | Some false => true
  | _ => false
  end.

(** Truthiness of a string: every string but the empty one. *)
Definition truthy (s : string) : bool :=
  match s with
  | EmptyString => false
  | String _ _ => true
  end.

(** [s || d] for a string-valued property [s] that may be [null] or
    absent ([None]): the default replaces [null], [undefined] and [""]. *)
Definition or_else (s : option string) (d : string) : string :=
  match s with
  | Some t => if truthy t then t else d
  | None => d
  end.

Definition lower_ascii (c : ascii) : ascii :=
  let n := nat_of_ascii c in
  if (65 <=? n)%nat && (n <=? 90)%nat then ascii_of_nat (n + 32) else c.

(** A stand-in for [String.prototype.toLowerCase] where a statement about
    sample data needs a function: it folds the letters [A]..[Z], as
    [toLowerCase] does on strings of ASCII characters. *)
Fixpoint asciiLower (s : string) : string :=
  match s with
  | EmptyString => EmptyString
  | String c s' => String (lower_ascii c) (asciiLower s')
  end.

(** [startsWith s p]: [p] is a prefix of [s]. *)
Fixpoint startsWith (s p : string) : bool :=
  match p, s with
  | EmptyString, _ => true
  | String _ _, EmptyString => false
  | String b p', String a s' => Ascii.eqb a b && startsWith s' p'
  end.

(** [s.includes(p)]: [p] occurs in [s] at some position. *)
Fixpoint includes (s p : string) : bool :=
  startsWith s p ||
  match s with
  | EmptyString => false
  | String _ s' => includes s' p
  end.

End JS.

(* ------------------------------------------------------------------ *)
(** ** The events feed and the Filter Engine *)

(** One feature of the events feed:
    [{ id, properties: { mag, place, time }, geometry: { coordinates } }]. *)
Record Properties : Type := mkProperties {
  mag : JS.value;
  place : option string;
  time : Z
}.

Record Geometry : Type := mkGeometry {
  coordinates : list JS.value
}.

Record Feature : Type := mkFeature {
  id : string;
  properties : Properties;
  geometry : Geometry
}.

(** [coordinates[i]]: a read past the end of the array is [undefined]. *)
Definition at_index (l : list JS.value) (i : nat) : JS.value :=
  nth i l JS.VUndefined.

(** The filter inputs of the component state.  The four bounds are set
    from range sliders through [Number(e.target.value)]. *)
Record Criteria : Type := mkCriteria {
  minMagnitude : Q;
  maxMagnitude : Q;
  minDepth : Q;
  maxDepth : Q;
  placeFilter : string
}.

Section FilterEngine.

(** [String.prototype.toLowerCase], left to the host. *)
Variable toLowerCase : string -> string.

(** The callback given to [earthquakes.filter] (lines 122-128). *)
Definition keeps (c : Criteria) (eq : Feature) : bool :=
  let mag := mag (properties eq) in
  let depth := at_index (coordinates (geometry eq)) 2 in
  let place := JS.or_else (place (properties eq)) "" in
  let placeMatch :=
    if JS.truthy (placeFilter c)
    then JS.includes (toLowerCase place) (toLowerCase (placeFilter c))
    else true in
  JS.ge mag (JS.VNum (minMagnitude c)) && JS.le mag (JS.VNum (maxMagnitude c))
  && JS.ge depth (JS.VNum (minDepth c)) && JS.le depth (JS.VNum (maxDepth c))
  && placeMatch.

Definition filteredEarthquakes (c : Criteria) (earthquakes : list Feature)
  : list Feature :=
  filter (keeps c) earthquakes.

End FilterEngine.

(** The initial values of the four sliders and of the place filter. *)
Definition fullRange : Criteria :=
  mkCriteria 0 10 0 700 "".

(* ------------------------------------------------------------------ *)
(** ** What the specification says of the Filter Engine *)

(** The number a magnitude or depth is read as: a number is itself and
    [null] is 0; an absent value is read as no number. *)
Inductive ReadsAs : JS.value -> Q -> Prop :=
| reads_number (q : Q) : ReadsAs (JS.VNum q) q
| reads_null : ReadsAs JS.VNull 0.

(** A value lies within [[lo, hi]]: the number it is read as does. *)
Definition within (v : JS.value) (lo hi : Q) : Prop :=
  exists q, ReadsAs v q /\ (lo <= q)%Q /\ (q <= hi)%Q.

(** A value is a number of [[lo, hi]]: what lying within a range says of
    a magnitude or depth when nothing is said of [null]. *)
Definition numberWithin (v : JS.value) (lo hi : Q) : Prop :=
  exists q, v = JS.VNum q /\ (lo <= q)%Q /\ (q <= hi)%Q.

(** The depth of an event: the third of its coordinates, if there is
    one. *)
Definition depthKm (e : Feature) : option JS.value :=
  nth_error (coordinates (geometry e)) 2.

(** [kw] occurs in [s] once both are brought to lower case by [lower]. *)
Definition contains_ci (lower : string -> string) (s kw : string) : Prop :=
  exists pre suf : string, lower s = (pre ++ lower kw ++ suf)%string.

Definition place_or_empty (e : Feature) : string :=
  match place (properties e) with
  | Some s => s
  | None => ""%string
  end.

(** The four clauses of the filter predicate. *)
Definition satisfies (lower : string -> string) (c : Criteria) (e : Feature)
  : Prop :=
  within (mag (properties e)) (minMagnitude c) (maxMagnitude c) /\
  (exists d, depthKm e = Some d /\ within d (minDepth c) (maxDepth c)) /\
  (placeFilter c = ""%string \/
   contains_ci lower (place_or_empty e) (placeFilter c)).

(** The four clauses with a magnitude and a depth that are numbers. *)
Definition satisfies_as_numbers (lower : string -> string) (c : Criteria)
  (e : Feature) : Prop :=
  numberWithin (mag (properties e)) (minMagnitude c) (maxMagnitude c) /\
  (exists d, depthKm e = Some d /\
             numberWithin d (minDepth c) (maxDepth c)) /\
  (placeFilter c = ""%string \/
   contains_ci lower (place_or_empty e) (placeFilter c)).

(** [Selects P l l']: [l'] lists exactly the elements of [l] that satisfy
    [P], position by position, in the order of [l]. *)
Inductive Selects {A : Type} (P : A -> Prop) : list A -> list A -> Prop :=
| Selects_nil : Selects P [] []
| Selects_keep x l l' : P x -> Selects P l l' -> Selects P (x :: l) (x :: l')
| Selects_drop x l l' : ~ P x -> Selects P l l' -> Selects P (x :: l) l'.

(* ------------------------------------------------------------------ *)
(** ** Plain objects used as maps *)

Module Obj.

(** The own string-keyed properties of an object, in the order of their
    creation. *)
Definition t (A : Type) : Type := list (string * A).

(** The property names that an object literal inherits from
    [Object.prototype]. *)
Definition inheritedNames : list string :=
  ["constructor"; "__defineGetter__"; "__defineSetter__"; "hasOwnProperty";
   "__lookupGetter__"; "__lookupSetter__"; "isPrototypeOf";
   "propertyIsEnumerable"; "toString"; "valueOf"; "__proto__";
   "toLocaleString"]%string.

Definition inherited (k : string) : bool :=
  existsb (String.eqb k) inheritedNames.

(** The result of the read [o[k]]: an own property, [undefined], or a
    member of [Object.prototype] found along the prototype chain. *)
Inductive read (A : Type) : Type :=
| Own (a : A)
| Absent
| Inherited.

Arguments Own {A} a.
Arguments Absent {A}.
Arguments Inherited {A}.

Fixpoint own {A : Type} (o : t A) (k : string) : option A :=
  match o with
  | [] => None
  | (k', v) :: o' => if String.eqb k' k then Some v else own o' k
  end.

Definition get {A : Type} (o : t A) (k : string) : read A :=
  match own o k with
  | Some v => Own v
  | None => if inherited k then Inherited else Absent
  end.

(** The write [o[k] = v] for a key that is not inherited: an existing
    property keeps its place, a new one is created last. *)
Fixpoint set {A : Type} (o : t A) (k : string) (v : A) : t A :=
  match o with
  | [] => [(k, v)]
  | (k', v') :: o' =>
      if String.eqb k' k then (k', v) :: o' else (k', v') :: set o' k v
  end.

Definition digit (c : ascii) : option N :=
  let n := N_of_ascii c in
  if (48 <=? n)%N && (n <=? 57)%N then Some (n - 48)%N else None.

Fixpoint digits (s : string) (acc : N) : option N :=
  match s with
  | EmptyString => Some acc
  | String c s' =>
      match digit c with
      | Some d => digits s' (10 * acc + d)%N
      | None => None
      end
  end.

(** [arrayIndex k]: the number that [k] denotes when [k] is an array
    index, that is a canonical decimal numeral (no sign, no leading zero)
    of value at most [2^32 - 2]. *)
Definition arrayIndex (k : string) : option N :=
  match k with
  | EmptyString => None
  | String "0" (String _ _) => None
  | String _ _ =>
      match digits k 0 with
      | Some n => if (n <=? 4294967294)%N then Some n else None
      | None => None
      end
  end.

Definition isIndex (k : string) : bool :=
  match arrayIndex k with Some _ => true | None => false end.

Definition indexOf (k : string) : N :=
  match arrayIndex k with Some n => n | None => 0%N end.

(** Insertion of [x] into a list that ascends by [key]. *)
Fixpoint insertAsc {A : Type} (key : A -> N) (x : A) (l : list A) : list A :=
  match l with
  | [] => [x]
  | y :: l' => if (key y <? key x)%N then y :: insertAsc key x l' else x :: l
  end.

Definition ascending {A : Type} (key : A -> N) (l : list A) : list A :=
  fold_right (insertAsc key) [] l.

(** The order of the own property keys: the array indices in ascending
    numeric order, then the other strings in the order of creation. *)
Definition ordered {A : Type} (name : A -> string) (l : list A) : list A :=
  ascending (fun x => indexOf (name x)) (filter (fun x => isIndex (name x)) l)
  ++ filter (fun x => negb (isIndex (name x))) l.

(** [Object.entries(o)]. *)
Definition entries {A : Type} (o : t A) : list (string * A) :=
  ordered fst o.

End Obj.

(* ------------------------------------------------------------------ *)
(** ** Arrays *)

Module Arr.

(** Insertion of [x], which precedes the elements of [l] in the array,
    into the sorted [l]: [x] passes the elements [y] that the comparator
    puts strictly first ([cmp x y > 0]). *)
Fixpoint insert {A : Type} (cmp : A -> A -> Z) (x : A) (l : list A) : list A :=
  match l with
  | [] => [x]
  | y :: l' => if (0 <? cmp x y)%Z then y :: insert cmp x l' else x :: l
  end.

(** [Array.prototype.sort(cmp)].  The sort is stable, and for a
    consistent comparator its result does not depend on the algorithm. *)
Definition sort {A : Type} (cmp : A -> A -> Z) (l : list A) : list A :=
  fold_right (insert cmp) [] l.

(** [a.slice(0, n)]. *)
Definition slice0 {A : Type} (n : nat) (l : list A) : list A := firstn n l.

End Arr.

(* ------------------------------------------------------------------ *)
(** ** The boundaries feed *)

(** A line feature of the boundaries document as it is received. *)
Record RawBoundary : Type := mkRawBoundary {
  path : list (Q * Q);
  name : string
}.

(** A feature after [fetchPlates] has added [properties.boundaryType];
    [None] is [undefined]. *)
Record Boundary : Type := mkBoundary {
  raw : RawBoundary;
  boundaryType : option string
}.

Definition types : list string := ["Convergent"; "Divergent"; "Transform"]%string.

(** [types[i]] for a number [i]: [undefined] off the array. *)
Definition types_at (i : Z) : option string :=
  match i with
  | Zneg _ => None
  | _ => nth_error types (Z.to_nat i)
  end.

Section Draws.

(** The product of two doubles, left to the host. *)
Variable fmul : JS.number -> JS.number -> JS.number.

(** [getRandomBoundaryType], as a function of the number [r] that
    [Math.random()] returns: the host multiplies [r] by [types.length],
    [Math.floor] takes the integer part of a finite product, and a
    product that is not finite indexes nothing. *)
Definition getRandomBoundaryType (r : Q) : option string :=
  match fmul (JS.Fin r) (JS.Fin (inject_Z (Z.of_nat (List.length types)))) with
  | JS.Fin product => types_at (Qfloor product)
  | _ => None
  end.

(** [data.features.map(f => ({...f, properties: {...f.properties,
    boundaryType: getRandomBoundaryType()}}))]: the features are visited
    in order and the [n]-th visit takes the [n]-th number that
    [Math.random] returns, [random n]. *)
Fixpoint decorate (random : nat -> Q) (n : nat) (features : list RawBoundary)
  : list Boundary :=
  match features with
  | [] => []
  | f :: fs =>
      mkBoundary f (getRandomBoundaryType (random n)) :: decorate random (S n) fs
  end.

End Draws.

Definition boundaryColors : Obj.t string :=
  [("Convergent", "#FF0000"); ("Divergent", "#006400");
   ("Transform", "#0000FF")]%string.

Definition boundaryDescriptions : Obj.t string :=
  [("Convergent", "Convergent: Plates collide → Strong earthquakes");
   ("Divergent", "Divergent: Plates move apart → Moderate earthquakes");
   ("Transform", "Transform: Plates slide past → Shallow earthquakes")]%string.

(** A property key made from a value that may be [undefined]. *)
Definition keyOf (k : option string) : string :=
  match k with
  | Some s => s
  | None => "undefined"%string
  end.

(** How a table lookup ends. *)
Inductive Looked : Type :=
| Found (s : string)
| Fallback (s : string)
| Missing
| FromPrototype.

(** [boundaryColors[feature.properties.boundaryType] || "#FF00FF"]. *)
Definition pathColor (b : Boundary) : Looked :=
  match Obj.get boundaryColors (keyOf (boundaryType b)) with
  | Obj.Own c => if JS.truthy c then Found c else Fallback "#FF00FF"
  | Obj.Absent => Fallback "#FF00FF"
  | Obj.Inherited => FromPrototype
  end.

(** [boundaryDescriptions[type]]. *)
Definition describe (b : Boundary) : Looked :=
  match Obj.get boundaryDescriptions (keyOf (boundaryType b)) with
  | Obj.Own d => Found d
  | Obj.Absent => Missing
  | Obj.Inherited => FromPrototype
  end.

(* ------------------------------------------------------------------ *)
(** ** The Aggregator: [ExplanationPanel.stats] *)

Definition magnitudes (fs : list Feature) : list JS.value :=
  map (fun e => mag (properties e)) fs.

Definition depths (fs : list Feature) : list JS.value :=
  map (fun e => at_index (coordinates (geometry e)) 2) fs.

Definition isHigh (m : JS.value) : bool := JS.ge m (JS.VNum 5).
Definition isMed (m : JS.value) : bool := JS.ge m (JS.VNum 3) && JS.lt m (JS.VNum 5).
Definition isLow (m : JS.value) : bool := JS.lt m (JS.VNum 3).

Definition highMagCount (fs : list Feature) : nat :=
  List.length (filter isHigh (magnitudes fs)).

Definition medMagCount (fs : list Feature) : nat :=
  List.length (filter isMed (magnitudes fs)).

Definition lowMagCount (fs : list Feature) : nat :=
  List.length (filter isLow (magnitudes fs)).

(** The loop of [Math.max] over the coerced arguments. *)
Fixpoint max_loop (highest : JS.number) (coerced : list JS.number) : JS.number :=
  match coerced with
  | [] => highest
  | JS.NaN :: _ => JS.NaN
  | n :: rest =>
      max_loop (match JS.num_lt highest n with
                | Some true => n
                | _ => highest
                end) rest
  end.

Definition Math_max (args : list JS.value) : JS.number :=
  max_loop JS.NegInf (map JS.ToNumber args).

(** The loop of [Math.min] over the coerced arguments. *)
Fixpoint min_loop (lowest : JS.number) (coerced : list JS.number) : JS.number :=
  match coerced with
  | [] => lowest
  | JS.NaN :: _ => JS.NaN
  | n :: rest =>
      min_loop (match JS.num_lt n lowest with
                | Some true => n
                | _ => lowest
                end) rest
  end.

Definition Math_min (args : list JS.value) : JS.number :=
  min_loop JS.PosInf (map JS.ToNumber args).

(** [e.properties.place || "Unknown"]. *)
Definition placeKey (e : Feature) : string :=
  JS.or_else (place (properties e)) "Unknown".

(** [counts[k] = (counts[k] || 0) + 1].  A key that reaches a member of
    [Object.prototype] makes the right-hand side a string and is not
    modelled: the result is [None]. *)
Definition bump (counts : Obj.t nat) (k : string) : option (Obj.t nat) :=
  match Obj.get counts k with
  | Obj.Own n => Some (Obj.set counts k ((if (n =? 0)%nat then 0 else n) + 1)%nat)
  | Obj.Absent => Some (Obj.set counts k (0 + 1)%nat)
  | Obj.Inherited => None
  end.

(** The [forEach] loops that fill [locationCounts] and [plateCounts]. *)
Fixpoint tally (counts : Obj.t nat) (keys : list string) : option (Obj.t nat) :=
  match keys with
  | [] => Some counts
  | k :: rest =>
      match bump counts k with
      | Some counts' => tally counts' rest
      | None => None
      end
  end.

Definition locationCounts (fs : list Feature) : option (Obj.t nat) :=
  tally [] (map placeKey fs).

(** The comparator [(a, b) => b[1] - a[1]]. *)
Definition byCountDesc (a b : string * nat) : Z :=
  (Z.of_nat (snd b) - Z.of_nat (snd a))%Z.

Definition decimal (n : nat) : string :=
  NilEmpty.string_of_uint (Nat.to_uint n).

(** The template [`${place} (${count})`]. *)
Definition label (entry : string * nat) : string :=
  (fst entry ++ " (" ++ decimal (snd entry) ++ ")")%string.

Definition ranked (counts : Obj.t nat) : list (string * nat) :=
  Arr.slice0 5 (Arr.sort byCountDesc (Obj.entries counts)).

Definition topLocations (fs : list Feature) : option (list string) :=
  match locationCounts fs with
  | Some counts => Some (map label (ranked counts))
  | None => None
  end.

(** [plateCounts]: empty while the boundaries are not loaded. *)
Definition plateCounts (plates : option (list Boundary)) : option (Obj.t nat) :=
  match plates with
  | Some features => tally [] (map (fun f => keyOf (boundaryType f)) features)
  | None => Some []
  end.

Section Stats.

(** The arithmetic of doubles that the average needs is left to the
    host: addition, division, and [toFixed(2)]. *)
Variable fadd : JS.number -> JS.number -> JS.number.
Variable fdiv : JS.number -> JS.number -> JS.number.
Variable toFixed2 : JS.number -> string.

(** [magnitudes.reduce((a, b) => a + b, 0)]: the accumulator is a number,
    and adding a value that is a number, [null] or [undefined] to it adds
    its [ToNumber]. *)
Definition sumMag (ms : list JS.value) : JS.number :=
  fold_left (fun a b => fadd a (JS.ToNumber b)) ms (JS.Fin 0).

Definition avgMag (fs : list Feature) : string :=
  toFixed2 (fdiv (sumMag (magnitudes fs))
                 (JS.Fin (inject_Z (Z.of_nat (List.length fs))))).

(** The object that [stats] returns.  [r_topLocations] and
    [r_plateCounts] are [None] where [bump] is. *)
Record Report : Type := mkReport {
  r_total : nat;
  r_highMagCount : nat;
  r_medMagCount : nat;
  r_lowMagCount : nat;
  r_avgMag : string;
  r_maxMag : JS.number;
  r_minMag : JS.number;
  r_maxDepth : JS.number;
  r_minDepth : JS.number;
  r_topLocations : option (list string);
  r_plateCounts : option (Obj.t nat)
}.

(** [stats] (lines 132-168); [None] is the [null] of line 133. *)
Definition stats (filtered : list Feature) (plates : option (list Boundary))
  : option Report :=
  if (List.length filtered =? 0)%nat then None
  else Some {|
    r_total := List.length filtered;
    r_highMagCount := highMagCount filtered;
    r_medMagCount := medMagCount filtered;
    r_lowMagCount := lowMagCount filtered;
    r_avgMag := avgMag filtered;
    r_maxMag := Math_max (magnitudes filtered);
    r_minMag := Math_min (magnitudes filtered);
    r_maxDepth := Math_max (depths filtered);
    r_minDepth := Math_min (depths filtered);
    r_topLocations := topLocations filtered;
    r_plateCounts := plateCounts plates
  |}.

(** What [ExplanationPanel] renders. *)
Inductive View : Type :=
| NoMatches (text : string)
| ReportView (r : Report).

(** Line 170: [if (!stats) return <p>...</p>], else the report. *)
Definition ExplanationPanel (filtered : list Feature)
  (plates : option (list Boundary)) : View :=
  match stats filtered plates with
  | None => NoMatches "No earthquakes match the current filters."
  | Some r => ReportView r
  end.

End Stats.

(* ------------------------------------------------------------------ *)
(** ** The component state and its asynchronous callbacks *)

(** The first candidate of a geocoder answer; the coordinates stored are
    [[parseFloat(lat), parseFloat(lon)]], kept here as the two strings
    that [parseFloat] is applied to. *)
Record Candidate : Type := mkCandidate {
  lat : string;
  lon : string
}.

(** The [useState] cells of [CoreMap]; [filters] groups the four slider
    values and [placeFilter]. *)
Record State : Type := mkState {
  earthquakes : list Feature;
  plates : option (list Boundary);
  filters : Criteria;
  timeRange : string;
  searchLocation : string;
  locationCoords : option Candidate;
  showExplanation : bool;
  mapReady : bool
}.

(** A request that has been issued and has not completed. *)
Inductive Request : Type :=
| GetEarthquakes (range : string)
| GetPlates
| GetPlace (query : string).

(** How an awaited [fetch(...)] followed by [res.json()] ends. *)
Inductive Reply (A : Type) : Type :=
| Resolved (data : A)
| Rejected.

Arguments Resolved {A} data.
Arguments Rejected {A}.

(** The component together with what it has sent out: the requests in
    flight, the [alert]s shown and the number of [console.error] calls. *)
Record World : Type := mkWorld {
  ui : State;
  inflight : list Request;
  alerts : list string;
  logged : nat
}.

Definition Request_eqb (a b : Request) : bool :=
  match a, b with
  | GetEarthquakes x, GetEarthquakes y => String.eqb x y
  | GetPlates, GetPlates => true
  | GetPlace x, GetPlace y => String.eqb x y
  | _, _ => false
  end.

Fixpoint settle (r : Request) (l : list Request) : list Request :=
  match l with
  | [] => []
  | x :: l' => if Request_eqb x r then l' else x :: settle r l'
  end.

Definition with_ui (f : State -> State) (w : World) : World :=
  mkWorld (f (ui w)) (inflight w) (alerts w) (logged w).

Definition issue (r : Request) (w : World) : World :=
  mkWorld (ui w) (inflight w ++ [r]) (alerts w) (logged w).

Definition settled (r : Request) (w : World) : World :=
  mkWorld (ui w) (settle r (inflight w)) (alerts w) (logged w).

Definition alert (msg : string) (w : World) : World :=
  mkWorld (ui w) (inflight w) (alerts w ++ [msg]) (logged w).

Definition console_error (w : World) : World :=
  mkWorld (ui w) (inflight w) (alerts w) (S (logged w)).

Definition setEarthquakes (v : list Feature) (s : State) : State :=
  mkState v (plates s) (filters s) (timeRange s) (searchLocation s)
          (locationCoords s) (showExplanation s) (mapReady s).

Definition setPlates (v : option (list Boundary)) (s : State) : State :=
  mkState (earthquakes s) v (filters s) (timeRange s) (searchLocation s)
          (locationCoords s) (showExplanation s) (mapReady s).

Definition setFilters (v : Criteria) (s : State) : State :=
  mkState (earthquakes s) (plates s) v (timeRange s) (searchLocation s)
          (locationCoords s) (showExplanation s) (mapReady s).

Definition setTimeRange (v : string) (s : State) : State :=
  mkState (earthquakes s) (plates s) (filters s) v (searchLocation s)
          (locationCoords s) (showExplanation s) (mapReady s).

Definition setSearchLocation (v : string) (s : State) : State :=
  mkState (earthquakes s) (plates s) (filters s) (timeRange s) v
          (locationCoords s) (showExplanation s) (mapReady s).

Definition setLocationCoords (v : option Candidate) (s : State) : State :=
  mkState (earthquakes s) (plates s) (filters s) (timeRange s)
          (searchLocation s) v (showExplanation s) (mapReady s).

Definition setShowExplanation (v : bool) (s : State) : State :=
  mkState (earthquakes s) (plates s) (filters s) (timeRange s)
          (searchLocation s) (locationCoords s) v (mapReady s).

Definition setMapReady (v : bool) (s : State) : State :=
  mkState (earthquakes s) (plates s) (filters s) (timeRange s)
          (searchLocation s) (locationCoords s) (showExplanation s) v.

Definition setMinMagnitude (v : Q) (c : Criteria) : Criteria :=
  mkCriteria v (maxMagnitude c) (minDepth c) (maxDepth c) (placeFilter c).

Definition setMaxMagnitude (v : Q) (c : Criteria) : Criteria :=
  mkCriteria (minMagnitude c) v (minDepth c) (maxDepth c) (placeFilter c).

Definition setMinDepth (v : Q) (c : Criteria) : Criteria :=
  mkCriteria (minMagnitude c) (maxMagnitude c) v (maxDepth c) (placeFilter c).

Definition setMaxDepth (v : Q) (c : Criteria) : Criteria :=
  mkCriteria (minMagnitude c) (maxMagnitude c) (minDepth c) v (placeFilter c).

Definition setPlaceFilter (v : string) (c : Criteria) : Criteria :=
  mkCriteria (minMagnitude c) (maxMagnitude c) (minDepth c) (maxDepth c) v.

(** The values of the [useState] calls (lines 50-61). *)
Definition initialState : State :=
  mkState [] None fullRange "all_day" "" None false false.

(** The effect of lines 63-74 starts [fetchEarthquakes] for the current
    [timeRange]. *)
Definition fetchEarthquakes (w : World) : World :=
  issue (GetEarthquakes (timeRange (ui w))) w.

(** The effect of lines 76-91 starts [fetchPlates]. *)
Definition fetchPlates (w : World) : World :=
  issue GetPlates w.

(** The component after its first render: both effects have run. *)
Definition mounted : World :=
  fetchPlates (fetchEarthquakes (mkWorld initialState [] [] 0)).

(** The [select] of the time window: a new value is stored and, being a
    dependency of the effect, starts a new fetch. *)
Definition changeTimeRange (v : string) (w : World) : World :=
  if String.eqb v (timeRange (ui w)) then w
  else fetchEarthquakes (with_ui (setTimeRange v) w).

(** The end of the [fetchEarthquakes] call started for [range]
    (lines 65-71): [setEarthquakes(data.features)], or [console.error]. *)
Definition earthquakesReply (range : string) (r : Reply (list Feature))
  (w : World) : World :=
  let w := settled (GetEarthquakes range) w in
  match r with
  | Resolved features => with_ui (setEarthquakes features) w
  | Rejected => console_error w
  end.

(** The end of [fetchPlates] (lines 78-88); [fmul] is the product of
    doubles that [getRandomBoundaryType] needs. *)
Definition platesReply (fmul : JS.number -> JS.number -> JS.number)
  (r : Reply (list RawBoundary)) (random : nat -> Q) (w : World) : World :=
  let w := settled GetPlates w in
  match r with
  | Resolved features =>
      with_ui (setPlates (Some (decorate fmul random 0 features))) w
  | Rejected => console_error w
  end.

(** [handleSearch] up to its [await] (lines 104-109): an early return on
    a falsy [searchLocation], else the request. *)
Definition handleSearch (w : World) : World :=
  if negb (JS.truthy (searchLocation (ui w))) then w
  else issue (GetPlace (searchLocation (ui w))) w.

(** [handleSearch] after its [await] (lines 110-119). *)
Definition placeReply (query : string) (r : Reply (list Candidate))
  (w : World) : World :=
  let w := settled (GetPlace query) w in
  match r with
  | Resolved (first :: _) => with_ui (setLocationCoords (Some first)) w
  | Resolved [] => alert "Location not found!" w
  | Rejected => console_error w
  end.

(** What can happen to the mounted component. *)
Inductive Event : Type :=
| MinMagnitudeInput (v : Q)
| MaxMagnitudeInput (v : Q)
| MinDepthInput (v : Q)
| MaxDepthInput (v : Q)
| TimeRangeSelect (v : string)
| SearchLocationInput (v : string)
| GoClick
| PlaceFilterInput (v : string)
| ShowExplanationClick
| CloseReportClick
| MapReadyTimer
| EarthquakesReply (range : string) (r : Reply (list Feature))
| PlatesReply (r : Reply (list RawBoundary)) (random : nat -> Q)
| PlaceReply (query : string) (r : Reply (list Candidate)).

Definition handle (fmul : JS.number -> JS.number -> JS.number)
  (ev : Event) (w : World) : World :=
  match ev with
  | MinMagnitudeInput v =>
      with_ui (fun s => setFilters (setMinMagnitude v (filters s)) s) w
  | MaxMagnitudeInput v =>
      with_ui (fun s => setFilters (setMaxMagnitude v (filters s)) s) w
  | MinDepthInput v =>
      with_ui (fun s => setFilters (setMinDepth v (filters s)) s) w
  | MaxDepthInput v =>
      with_ui (fun s => setFilters (setMaxDepth v (filters s)) s) w
  | TimeRangeSelect v => changeTimeRange v w
  | SearchLocationInput v => with_ui (setSearchLocation v) w
  | GoClick => handleSearch w
  | PlaceFilterInput v =>
      with_ui (fun s => setFilters (setPlaceFilter v (filters s)) s) w
  | ShowExplanationClick => with_ui (setShowExplanation true) w
  | CloseReportClick => with_ui (setShowExplanation false) w
  | MapReadyTimer => with_ui (setMapReady true) w
  | EarthquakesReply range r => earthquakesReply range r w
  | PlatesReply r random => platesReply fmul r random w
  | PlaceReply query r => placeReply query r w
  end.

(** The largest double below 1, [1 - 2^-53]. *)
Definition lastBelowOne : Q := 9007199254740991 # 9007199254740992.

(** [Math.random] returns a double of [[0, 1)], hence a number between 0
    and the largest double below 1. *)
Definition unit_interval (random : nat -> Q) : Prop :=
  forall n, (0 <= random n)%Q /\ (random n <= lastBelowOne)%Q.

(** A reply can only come for a request in flight. *)
Definition possible (ev : Event) (w : World) : Prop :=
  match ev with
  | EarthquakesReply range _ => In (GetEarthquakes range) (inflight w)
  | PlatesReply _ random => In GetPlates (inflight w) /\ unit_interval random
  | PlaceReply query _ => In (GetPlace query) (inflight w)
  | _ => True
  end.

(** The worlds that a session can reach. *)
Inductive reachable (fmul : JS.number -> JS.number -> JS.number)
  : World -> Prop :=
| reachable_mounted : reachable fmul mounted
| reachable_step w ev :
    reachable fmul w -> possible ev w -> reachable fmul (handle fmul ev w).


(** The filtered collection of the current render. *)
Definition rendered (toLowerCase : string -> string) (w : World)
  : list Feature :=
  filteredEarthquakes toLowerCase (filters (ui w)) (earthquakes (ui w)).

(** The white space of a query: space, tab, line feed, vertical tab,
    form feed, carriage return. *)
Definition isWhite (c : ascii) : bool :=
  let n := nat_of_ascii c in
  (n =? 32)%nat || ((9 <=? n)%nat && (n <=? 13)%nat).

Fixpoint blank (s : string) : bool :=
  match s with
  | EmptyString => true
  | String c s' => isWhite c && blank s'
  end.

(* ------------------------------------------------------------------ *)
(** ** What the specification says of the Aggregator *)

(** The distinct elements of a list, each at its first occurrence. *)
Fixpoint firstSeen (l : list string) : list string :=
  match l with
  | [] => []
  | x :: r => x :: filter (fun y => negb (String.eqb y x)) (firstSeen r)
  end.

(** The place under which the report groups an event: its place string
    as it is, and "Unknown" when the place is empty or missing. *)
Definition groupedUnder (e : Feature) : string :=
  match place (properties e) with
  | Some (String c s) => String c s
  | _ => "Unknown"%string
  end.

(** The number of events of [fs] grouped under the place [p]. *)
Definition occurrences (p : string) (fs : list Feature) : nat :=
  List.length (filter (fun e => String.eqb (groupedUnder e) p) fs).

(** The distinct places of [fs], in the order of first occurrence. *)
Definition distinctPlaces (fs : list Feature) : list string :=
  firstSeen (map groupedUnder fs).

(** The text of an entry of the list: the place, a space, and the count
    in decimal between parentheses. *)
Definition entryText (e : string * nat) : string :=
  (fst e ++ " (" ++ NilEmpty.string_of_uint (Nat.to_uint (snd e)) ++ ")")%string.

(** The ranking as the specification words it: one entry per distinct
    place in the order of first occurrence, sorted by descending count
    with a stable sort, the first five kept. *)
Definition topLocations_spec (fs : list Feature) : list string :=
  map entryText
    (firstn 5
       (Arr.sort byCountDesc
          (map (fun p => (p, occurrences p fs)) (distinctPlaces fs)))).

(** The places of [fs] do not name members of [Object.prototype]. *)
Definition plainPlaces (fs : list Feature) : Prop :=
  Forall (fun e => Obj.inherited (groupedUnder e) = false) fs.

(** The decimal numeral of a number: its digits, most significant first,
    without a leading zero ("0" for zero). *)
Definition numeral (n : N) : string :=
  NilEmpty.string_of_uint (N.to_uint n).

(** [IsArrayIndex p n]: the property name [p] is an array index, the
    numeral of the integer [n] below [2^32 - 1]. *)
Definition IsArrayIndex (p : string) (n : N) : Prop :=
  p = numeral n /\ (n <= 4294967294)%N.

Definition indexNamed (e : string * nat) : Prop :=
  exists n, IsArrayIndex (fst e) n.

(** [OwnKeyOrder created ordered]: [ordered] lists the entries [created]
    with those named by an array index first, in ascending numeric order,
    and the others after them in the order of [created]. *)
Definition OwnKeyOrder (created ordered : list (string * nat)) : Prop :=
  exists indexed named others,
    ordered = indexed ++ others /\
    Selects indexNamed created named /\
    Permutation indexed named /\
    StronglySorted
      (fun a b => forall m n,
         IsArrayIndex (fst a) m -> IsArrayIndex (fst b) n -> (m <= n)%N)
      indexed /\
    Selects (fun e => ~ indexNamed e) created others.

(** [RankedFrom base ranking]: [ranking] lists the entries of [base] by
    descending count, the entries of equal count in the order of [base]. *)
Definition RankedFrom (base ranking : list (string * nat)) : Prop :=
  Permutation ranking base /\
  StronglySorted (fun a b => (snd b <= snd a)%nat) ranking /\
  forall n, filter (fun e => (snd e =? n)%nat) ranking =
            filter (fun e => (snd e =? n)%nat) base.

(** The count stored under a key, 0 when there is none. *)
Definition stored (o : Obj.t nat) (k : string) : nat :=
  match Obj.own o k with
  | Some n => n
  | None => 0%nat
  end.

Definition absent_from (l : list string) (k : string) : bool :=
  negb (existsb (String.eqb k) l).

(** The events that carry a magnitude. *)
Definition hasMagnitude (e : Feature) : bool :=
  match mag (properties e) with
  | JS.VNull => false
  | _ => true
  end.

(** An event whose [null] magnitude is replaced by the number 0. *)
Definition nullAsZero (e : Feature) : Feature :=
  match mag (properties e) with
  | JS.VNull =>
      mkFeature (id e)
        (mkProperties (JS.VNum 0) (place (properties e)) (time (properties e)))
        (geometry e)
  | _ => e
  end.

(** The bands of the report as the specification words them, on the
    numeric reading [q] of a magnitude. *)
Definition strong (q : Q) : Prop := (5 <= q)%Q.
Definition moderate (q : Q) : Prop := (3 <= q)%Q /\ (q < 5)%Q.
Definition minor (q : Q) : Prop := (q < 3)%Q.

(** An event falls in exactly one band, and the three tests of the code
    decide the three bands. *)
Definition inOneBand (e : Feature) : Prop :=
  exists q, JS.ToNumber (mag (properties e)) = JS.Fin q /\
    (isHigh (mag (properties e)) = true <-> strong q) /\
    (isMed (mag (properties e)) = true <-> moderate q) /\
    (isLow (mag (properties e)) = true <-> minor q) /\
    ((strong q /\ ~ moderate q /\ ~ minor q) \/
     (~ strong q /\ moderate q /\ ~ minor q) \/
     (~ strong q /\ ~ moderate q /\ minor q)).

(** The magnitude of an event when it is a number. *)
Definition magnitudeOf (e : Feature) : option Q :=
  match mag (properties e) with
  | JS.VNum q => Some q
  | _ => None
  end.

(** The magnitude of an event with [null] read as 0. *)
Definition readingOf (e : Feature) : option Q :=
  match mag (properties e) with
  | JS.VNum q => Some q
  | JS.VNull => Some 0
  | JS.VUndefined => None
  end.

(** The three bands as tests of a magnitude that may be lacking. *)
Definition isStrong (m : option Q) : bool :=
  match m with
  | Some q => Qle_bool 5 q
  | None => false
  end.

Definition isModerate (m : option Q) : bool :=
  match m with
  | Some q => Qle_bool 3 q && negb (Qle_bool 5 q)
  | None => false
  end.

Definition isMinor (m : option Q) : bool :=
  match m with
  | Some q => negb (Qle_bool 3 q)
  | None => false
  end.

(** The number of events of [fs] whose magnitude, as [reading] gives it,
    passes [test]. *)
Definition countOf (test : option Q -> bool) (reading : Feature -> option Q)
  (fs : list Feature) : nat :=
  List.length (filter (fun e => test (reading e)) fs).

(** A magnitude in exactly one of the three bands. *)
Definition inOneOfThree (q : Q) : Prop :=
  (strong q /\ ~ moderate q /\ ~ minor q) \/
  (~ strong q /\ moderate q /\ ~ minor q) \/
  (~ strong q /\ ~ moderate q /\ minor q).

(** The three boundary kinds. *)
Definition threeKinds : list string :=
  ["Convergent"; "Divergent"; "Transform"]%string.

(** A boundary whose type is one of the three and whose lookups hit the
    tables. *)
Definition classified (b : Boundary) : Prop :=
  (exists kind, In kind threeKinds /\ boundaryType b = Some kind) /\
  (exists c, pathColor b = Found c) /\
  (exists d, describe b = Found d).

(** [x <= y] on numbers. *)
Definition num_le (x y : JS.number) : Prop := JS.num_lt y x = Some false.

(** What the classification needs of the product of doubles by 3: the
    product of 0 is not negative, the product grows with its first
    factor, and the product of the largest double below 1 is below 3
    (it is [3 - 2^-51]). *)
Definition TriplesLikeDoubles (fmul : JS.number -> JS.number -> JS.number)
  : Prop :=
  num_le (JS.Fin 0) (fmul (JS.Fin 0) (JS.Fin 3)) /\
  (forall a b, (a <= b)%Q ->
     num_le (fmul (JS.Fin a) (JS.Fin 3)) (fmul (JS.Fin b) (JS.Fin 3))) /\
  JS.num_lt (fmul (JS.Fin lastBelowOne) (JS.Fin 3)) (JS.Fin 3) = Some true.

(** The number of boundaries of [features] that carry the type [kind]. *)
Definition boundariesOf (kind : string) (features : list Boundary) : nat :=
  List.length
    (filter (fun b => match boundaryType b with
                      | Some k => String.eqb k kind
                      | None => false
                      end) features).



(* ------------------------------------------------------------------ *)
(** ** The product of doubles *)

(** The product of two doubles is the exact product rounded to the
    nearest double, a tie going to the double whose last bit is 0; a
    result of magnitude [2^1024] or more is an infinity.  A double has 53
    significant bits and an exponent of at least -1022, so the last place
    of the doubles around [x] is [2^(e - 52)], where [e] is the larger of
    -1022 and the exponent of [x].  The sign of a zero is not modelled. *)
Module Double.

(** The nearest integer, a tie going to the even one. *)
Definition nearestEven (y : Q) : Z :=
  let f := Qfloor y in
  match Qcompare (y - inject_Z f) (1 # 2) with
  | Lt => f
  | Gt => (f + 1)%Z
  | Eq => if Z.even f then f else (f + 1)%Z
  end.

(** The exponent of [x > 0]: the integer [e] with [2^e <= x < 2^(e+1)]. *)
Definition ilog2 (x : Q) : Z :=
  let e := (Z.log2 (Qnum x) - Z.log2 (Z.pos (Qden x)))%Z in
  if Qle_bool (2 ^ e) x then e else (e - 1)%Z.

Definition lastPlace (x : Q) : Z := (Z.max (ilog2 x) (-1022) - 52)%Z.

(** The nearest multiple of the last place of [x > 0]. *)
Definition nearest (x : Q) : Q :=
  inject_Z (nearestEven (x / 2 ^ lastPlace x)) * 2 ^ lastPlace x.

(** The double that a real number rounds to. *)
Definition round (x : Q) : JS.number :=
  match Qcompare x 0 with
  | Eq => JS.Fin 0
  | Gt => if Qle_bool (2 ^ 1024) (nearest x) then JS.PosInf
          else JS.Fin (nearest x)
  | Lt => if Qle_bool (2 ^ 1024) (nearest (- x)) then JS.NegInf
          else JS.Fin (- nearest (- x))
  end.

Definition infinite (positive : bool) : JS.number :=
  if positive then JS.PosInf else JS.NegInf.

(** An infinity times a finite number. *)
Definition scaled (positive : bool) (x : Q) : JS.number :=
  match Qcompare x 0 with
  | Eq => JS.NaN
  | Gt => infinite positive
  | Lt => infinite (negb positive)
  end.

(** [a * b] on doubles. *)
Definition mul (a b : JS.number) : JS.number :=
  match a, b with
  | JS.NaN, _ | _, JS.NaN => JS.NaN
  | JS.Fin x, JS.Fin y => round (x * y)
  | JS.Fin x, JS.PosInf | JS.PosInf, JS.Fin x => scaled true x
  | JS.Fin x, JS.NegInf | JS.NegInf, JS.Fin x => scaled false x
  | JS.PosInf, JS.PosInf | JS.NegInf, JS.NegInf => JS.PosInf
  | JS.PosInf, JS.NegInf | JS.NegInf, JS.PosInf => JS.NegInf
  end.

End Double.

(* ------------------------------------------------------------------ *)
(** ** Sample data *)

Definition quake (name : string) (m : JS.value) (depth : JS.value)
  (p : option string) : Feature :=
  mkFeature name (mkProperties m p 0)
            (mkGeometry [JS.VNum 0; JS.VNum 0; depth]).

(** The three events of the scenario of the specification. *)
Definition scenario : list Feature :=
  [quake "e1" (JS.VNum 2) (JS.VNum 10) (Some "X"%string);
   quake "e2" (JS.VNum 6) (JS.VNum 50) (Some "Y"%string);
   quake "e3" (JS.VNum 4) (JS.VNum 600) (Some "X"%string)]%string.

(** A micro-earthquake of negative magnitude. *)
Definition microquake : Feature :=
  quake "m1" (JS.VNum (-1 # 2)) (JS.VNum 5) (Some "Alaska"%string).

(** An event the feed reports without magnitude. *)
Definition unrated : Feature :=
  quake "u1" JS.VNull (JS.VNum 12) (Some "Nevada"%string).

Definition rated4 : Feature :=
  quake "r4" (JS.VNum 4) (JS.VNum 20) (Some "Chile"%string).

(** Two places seen once each, the second one an array index. *)
Definition numbered : list Feature :=
  [quake "n1" (JS.VNum 2) (JS.VNum 10) (Some "a"%string);
   quake "n2" (JS.VNum 2) (JS.VNum 10) (Some "7"%string)]%string.

(** Five events: the places "a", "7", none, "a" and the empty place. *)
Definition assorted : list Feature :=
  [quake "a1" (JS.VNum 2) (JS.VNum 10) (Some "a"%string);
   quake "a2" (JS.VNum 2) (JS.VNum 10) (Some "7"%string);
   quake "a3" (JS.VNum 2) (JS.VNum 10) None;
   quake "a4" (JS.VNum 2) (JS.VNum 10) (Some "a"%string);
   quake "a5" (JS.VNum 2) (JS.VNum 10) (Some ""%string)]%string.

(** Eight events, two for each of the places "b", "10", "9" and the
    unknown place (once missing, once empty). *)
Definition tied : list Feature :=
  [quake "t1" (JS.VNum 2) (JS.VNum 10) (Some "b"%string);
   quake "t2" (JS.VNum 2) (JS.VNum 10) (Some "10"%string);
   quake "t3" (JS.VNum 2) (JS.VNum 10) (Some "9"%string);
   quake "t4" (JS.VNum 2) (JS.VNum 10) None;
   quake "t5" (JS.VNum 2) (JS.VNum 10) (Some "b"%string);
   quake "t6" (JS.VNum 2) (JS.VNum 10) (Some "10"%string);
   quake "t7" (JS.VNum 2) (JS.VNum 10) (Some "9"%string);
   quake "t8" (JS.VNum 2) (JS.VNum 10) (Some ""%string)]%string.

(** Crossed magnitude sliders. *)
Definition crossed : Criteria := mkCriteria 7 3 0 700 "".

Definition dayFeed : list Feature := [rated4].
Definition weekFeed : list Feature := scenario.

(** The week is selected while the fetch of the day is in flight; the
    week answers first, the day last. *)
Definition weekSelected : World := changeTimeRange "all_week" mounted.
Definition weekShown : World :=
  earthquakesReply "all_week" (Resolved weekFeed) weekSelected.
Definition dayArrivesLate : World :=
  earthquakesReply "all_day" (Resolved dayFeed) weekShown.

(** A query of one space. *)
Definition spaceTyped : World := with_ui (setSearchLocation " ") mounted.

Definition ridge : RawBoundary := mkRawBoundary [(0, 0); (1, 1)]%Q "ridge".
Definition trench : RawBoundary := mkRawBoundary [(2, 2); (3, 1)]%Q "trench".

Definition halves (n : nat) : Q := 1 # 2.

(** A stand-in for the product of doubles where a statement about sample
    data needs one: the exact product. *)
Definition exact_mul (a b : JS.number) : JS.number :=
  match a, b with
  | JS.Fin x, JS.Fin y => JS.Fin (x * y)
  | _, _ => JS.NaN
  end.

Definition platesShown : World :=
  platesReply exact_mul (Resolved [ridge; trench]) halves mounted.

(** The double 0.3333333333333333, and a [Math.random] that returns it
    at every call. *)
Definition third : Q := 6004799503160661 # 18014398509481984.
Definition thirds (n : nat) : Q := third.

(** The two boundaries loaded with the product of doubles and these
    draws. *)
Definition thirdsShown : World :=
  platesReply Double.mul (Resolved [ridge; trench]) thirds mounted.

(** Stand-ins for the arithmetic of the host where a statement needs
    some: exact addition and division, and a constant text. *)
Definition exact_add (a b : JS.number) : JS.number :=
  match a, b with
  | JS.Fin x, JS.Fin y => JS.Fin (x + y)
  | _, _ => JS.NaN
  end.

Definition exact_div (a b : JS.number) : JS.number :=
  match a, b with
  | JS.Fin x, JS.Fin y => JS.Fin (x / y)
  | _, _ => JS.NaN
  end.

Definition no_text (a : JS.number) : string := "".

(* ------------------------------------------------------------------ *)
(** ** The map layer and the labels of the report *)

(** [getColor] (lines 98-102). *)
Definition getColor (m : JS.value) : string :=
  if JS.lt m (JS.VNum 3) then "green"
  else if JS.lt m (JS.VNum 5) then "orange"
  else "red".

(** The properties of one [Circle] of the map (lines 366-374). *)
Record CircleProps : Type := mkCircleProps {
  c_key : string;
  c_center : JS.value * JS.value;
  c_radius : JS.number;
  c_color : string;
  c_fillOpacity : Q;
  c_className : string
}.

Section MapLayer.

(** The multiplication of doubles is left to the host. *)
Variable fmul : JS.number -> JS.number -> JS.number.

(** The callback of [filteredEarthquakes.map] (lines 359-374): the
    coordinates are read by position, [mag * 20000] multiplies the
    numeric reading of [mag], and [Math.max] runs its loop over the
    product and 10000. *)
Definition circle (eq : Feature) : CircleProps :=
  let lon := at_index (coordinates (geometry eq)) 0 in
  let lat := at_index (coordinates (geometry eq)) 1 in
  let m := mag (properties eq) in
  let isHighMag := JS.ge m (JS.VNum 5) in
  mkCircleProps
    (id eq)
    (lat, lon)
    (max_loop JS.NegInf [fmul (JS.ToNumber m) (JS.Fin 20000); JS.Fin 10000])
    (getColor m)
    (if isHighMag then 8 # 10 else 5 # 10)
    (if isHighMag then "pulsing-circle" else "").

Definition circles (filtered : list Feature) : list CircleProps :=
  map circle filtered.

End MapLayer.

Module Str.

(** [s] without its first [n] characters. *)
Fixpoint skip (n : nat) (s : string) : string :=
  match n, s with
  | O, _ => s
  | S n', String _ s' => skip n' s'
  | S _, EmptyString => EmptyString
  end.

(** [s.replace(pat, rep)] for a string pattern [pat] and a replacement
    [rep] without dollar sign: the first occurrence of [pat], if there is
    one, is replaced. *)
Fixpoint replace (s pat rep : string) : string :=
  if JS.startsWith s pat then (rep ++ skip (String.length pat) s)%string
  else
    match s with
    | EmptyString => EmptyString
    | String c s' => String c (replace s' pat rep)
    end.

End Str.

(** [timeRange.replace("all_", "Last ")] (line 190). *)
Definition timeRangeLabel (range : string) : string :=
  Str.replace range "all_" "Last ".

Definition isGetPlates (r : Request) : bool :=
  match r with
  | GetPlates => true
  | _ => false
  end.

(** The number of [fetchPlates] calls that have not completed. *)
Definition pendingPlates (w : World) : nat :=
  List.length (filter isGetPlates (inflight w)).

(** The sum of the counts of a counting object. *)
Definition sumCounts (o : Obj.t nat) : nat :=
  list_sum (map snd o).

(** Sliders narrowed to the strong events at depths up to 100 km. *)
Definition strongShallow : Criteria := mkCriteria 5 10 0 100 "".

(** An event whose feed record has no magnitude property and only two
    coordinates. *)
Definition incomplete : Feature :=
  mkFeature "i1" (mkProperties JS.VUndefined (Some "Peru"%string) 0)
            (mkGeometry [JS.VNum 0; JS.VNum 0]).

(** An event without place. *)
Definition placeless : Feature :=
  quake "p1" (JS.VNum 4) (JS.VNum 20) None.

(* ------------------------------------------------------------------ *)
(** ** Facts about the JavaScript primitives *)

Lemma Qltb_false_iff (x y : Q) : JS.Qltb x y = false <-> (y <= x)%Q.
Proof.
  unfold JS.Qltb. rewrite negb_false_iff. apply Qle_bool_iff.
Qed.

Lemma ge_within_lo (v : JS.value) (lo : Q) :
  JS.ge v (JS.VNum lo) = true <->
  exists q, JS.ToNumber v = JS.Fin q /\ (lo <= q)%Q.
Proof.
  unfold JS.ge. destruct v as [q| |]; simpl.
  - destruct (JS.Qltb q lo) eqn:E.
    + split; [discriminate|]. intros (q' & Hq & Hle). injection Hq as <-.
      apply Qltb_false_iff in Hle. congruence.
    + apply Qltb_false_iff in E. split; [eauto|reflexivity].
  - destruct (JS.Qltb 0 lo) eqn:E.
    + split; [discriminate|]. intros (q' & Hq & Hle). injection Hq as <-.
      apply Qltb_false_iff in Hle. congruence.
    + apply Qltb_false_iff in E. split; [eauto|reflexivity].
  - split; [discriminate|]. intros (q' & Hq & _). discriminate.
Qed.

Lemma le_within_hi (v : JS.value) (hi : Q) :
  JS.le v (JS.VNum hi) = true <->
  exists q, JS.ToNumber v = JS.Fin q /\ (q <= hi)%Q.
Proof.
  unfold JS.le. destruct v as [q| |]; simpl.
  - destruct (JS.Qltb hi q) eqn:E.
    + split; [discriminate|]. intros (q' & Hq & Hle). injection Hq as <-.
      apply Qltb_false_iff in Hle. congruence.
    + apply Qltb_false_iff in E. split; [eauto|reflexivity].
  - destruct (JS.Qltb hi 0) eqn:E.
    + split; [discriminate|]. intros (q' & Hq & Hle). injection Hq as <-.
      apply Qltb_false_iff in Hle. congruence.
    + apply Qltb_false_iff in E. split; [eauto|reflexivity].
  - split; [discriminate|]. intros (q' & Hq & _). discriminate.
Qed.

(** What a value is read as is its [ToNumber] when that is finite. *)
Lemma ReadsAs_ToNumber (v : JS.value) (q : Q) :
  ReadsAs v q <-> JS.ToNumber v = JS.Fin q.
Proof.
  split.
  - intros H. destruct H; reflexivity.
  - destruct v; simpl; intros H; try discriminate;
      injection H as <-; constructor.
Qed.

Lemma within_ToNumber (v : JS.value) (lo hi : Q) :
  within v lo hi <->
  exists q, JS.ToNumber v = JS.Fin q /\ (lo <= q)%Q /\ (q <= hi)%Q.
Proof.
  unfold within. split; intros (q & H & B); exists q;
    (split; [now apply ReadsAs_ToNumber | exact B]).
Qed.

Lemma range_within (v : JS.value) (lo hi : Q) :
  JS.ge v (JS.VNum lo) && JS.le v (JS.VNum hi) = true <-> within v lo hi.
Proof.
  rewrite andb_true_iff, ge_within_lo, le_within_hi, within_ToNumber. split.
  - intros [(q & Hq & Hlo) (q' & Hq' & Hhi)].
    exists q. rewrite Hq in Hq'. injection Hq' as <-. auto.
  - intros (q & Hq & Hlo & Hhi). split; exists q; auto.
Qed.

(** The depth that the filter reads at index 2 is the third coordinate. *)
Lemma depth_within (e : Feature) (lo hi : Q) :
  (exists d, depthKm e = Some d /\ within d lo hi) <->
  within (at_index (coordinates (geometry e)) 2) lo hi.
Proof.
  unfold depthKm, at_index.
  destruct (nth_error (coordinates (geometry e)) 2) as [d|] eqn:E.
  - rewrite (nth_error_nth _ _ _ E). split.
    + intros (d' & H & W). now injection H as <-.
    + intros W. eauto.
  - apply nth_error_None in E. rewrite (nth_overflow _ _ E). split.
    + intros (d' & H & _). discriminate.
    + intros (q & H & _). inversion H.
Qed.

Lemma startsWith_spec (s p : string) :
  JS.startsWith s p = true <-> exists suf, s = (p ++ suf)%string.
Proof.
  revert s. induction p as [|b p IH]; intros s.
  - split; [intros _; exists s; reflexivity | destruct s; reflexivity].
  - destruct s as [|a s]; cbn [JS.startsWith String.append].
    + split; [discriminate | intros (suf & H); discriminate].
    + rewrite andb_true_iff, Ascii.eqb_eq, IH. split.
      * intros [-> (suf & ->)]. exists suf. reflexivity.
      * intros (suf & H). injection H as -> ->. split; [reflexivity|eauto].
Qed.

Lemma includes_spec (s p : string) :
  JS.includes s p = true <-> exists pre suf, s = (pre ++ p ++ suf)%string.
Proof.
  induction s as [|a s IH]; cbn [JS.includes].
  - rewrite orb_false_r, startsWith_spec. split.
    + intros (suf & H). exists ""%string, suf. exact H.
    + intros (pre & suf & H). destruct pre; simpl in H; [eauto|discriminate].
  - rewrite orb_true_iff, IH, startsWith_spec. split.
    + intros [(suf & H) | (pre & suf & H)].
      * exists ""%string, suf. exact H.
      * exists (String a pre), suf. simpl. now rewrite H.
    + intros (pre & suf & H). destruct pre as [|a' pre]; simpl in H.
      * left. eauto.
      * right. injection H as -> ->. eauto.
Qed.

Lemma or_else_empty (s : option string) :
  JS.or_else s "" = match s with Some t => t | None => ""%string end.
Proof.
  destruct s as [[|a t]|]; reflexivity.
Qed.

Lemma truthy_false_iff (s : string) : JS.truthy s = false <-> s = ""%string.
Proof.
  destruct s; simpl; split; congruence.
Qed.

(** The filter callback decides the four clauses. *)
Lemma placeMatch_spec (toLowerCase : string -> string) (pf pl : string) :
  (if JS.truthy pf
   then JS.includes (toLowerCase pl) (toLowerCase pf)
   else true) = true <->
  (pf = ""%string \/ contains_ci toLowerCase pl pf).
Proof.
  unfold contains_ci. destruct (JS.truthy pf) eqn:T.
  - rewrite includes_spec. split; [auto|].
    intros [E | H]; [|exact H]. rewrite E in T. discriminate.
  - apply truthy_false_iff in T. split; auto.
Qed.

Lemma keeps_satisfies (toLowerCase : string -> string) (c : Criteria)
  (e : Feature) :
  keeps toLowerCase c e = true <-> satisfies toLowerCase c e.
Proof.
  unfold keeps, satisfies, place_or_empty. cbv zeta.
  rewrite or_else_empty, !andb_true_iff, placeMatch_spec, depth_within.
  rewrite <- (range_within (mag (properties e))).
  rewrite <- (range_within (at_index (coordinates (geometry e)) 2)).
  rewrite !andb_true_iff. tauto.
Qed.

(** What the filter callback says of the two values it compares. *)
Lemma keeps_ranges (toLowerCase : string -> string) (c : Criteria)
  (e : Feature) :
  keeps toLowerCase c e = true ->
  within (mag (properties e)) (minMagnitude c) (maxMagnitude c) /\
  within (at_index (coordinates (geometry e)) 2) (minDepth c) (maxDepth c) /\
  (placeFilter c = ""%string \/
   contains_ci toLowerCase (place_or_empty e) (placeFilter c)).
Proof.
  intros K. apply keeps_satisfies in K. destruct K as (M & D & P).
  split; [exact M|]. split; [now apply depth_within | exact P].
Qed.

(** With the empty keyword the filter does not call [toLowerCase]. *)
Lemma empty_keyword_ignores_host (f g : string -> string) (c : Criteria)
  (earthquakes : list Feature) :
  placeFilter c = ""%string ->
  filteredEarthquakes f c earthquakes = filteredEarthquakes g c earthquakes.
Proof.
  intros E. apply filter_ext. intros e. unfold keeps. now rewrite E.
Qed.

Lemma filter_Selects {A : Type} (f : A -> bool) (P : A -> Prop) (l : list A) :
  (forall x, f x = true <-> P x) -> Selects P l (filter f l).
Proof.
  intros Hf. induction l as [|x l IH]; simpl.
  - constructor.
  - destruct (f x) eqn:E.
    + constructor; [now apply Hf | exact IH].
    + constructor; [|exact IH]. intros HP. apply Hf in HP. congruence.
Qed.

(** A selection is determined by the list and the predicate. *)
Lemma Selects_unique {A : Type} (P : A -> Prop) (l l1 l2 : list A) :
  Selects P l l1 -> Selects P l l2 -> l1 = l2.
Proof.
  intros H1. revert l2. induction H1; intros l2 H2; inversion H2; subst;
    try contradiction; try reflexivity; auto using f_equal.
Qed.

(* ------------------------------------------------------------------ *)
(** ** The scenarios of the specification, evaluated *)

Example scenario_full_range :
  filteredEarthquakes JS.asciiLower fullRange scenario = scenario /\
  highMagCount scenario = 1%nat /\
  medMagCount scenario = 1%nat /\
  lowMagCount scenario = 1%nat /\
  Math_max (magnitudes scenario) = JS.Fin 6 /\
  Math_min (magnitudes scenario) = JS.Fin 2 /\
  topLocations scenario = Some ["X (2)"; "Y (1)"]%string.
Proof.
  repeat split; reflexivity.
Qed.

Example scenario_strong_only :
  map id (filteredEarthquakes JS.asciiLower (mkCriteria 5 10 0 700 "") scenario) =
    ["e2"]%string.
Proof.
  reflexivity.
Qed.

Example scenario_keyword :
  map id (filteredEarthquakes JS.asciiLower (mkCriteria 0 10 0 700 "y") scenario) =
    ["e2"]%string /\
  map id (filteredEarthquakes JS.asciiLower (mkCriteria 0 10 0 700 "Y") scenario) =
    ["e2"]%string.
Proof.
  split; reflexivity.
Qed.

Example arrayIndex_examples :
  Obj.arrayIndex "7" = Some 7%N /\
  Obj.arrayIndex "0" = Some 0%N /\
  Obj.arrayIndex "07" = None /\
  Obj.arrayIndex "4294967294" = Some 4294967294%N /\
  Obj.arrayIndex "4294967295" = None /\
  Obj.arrayIndex "a" = None /\
  Obj.arrayIndex "" = None.
Proof.
  repeat split; reflexivity.
Qed.

(* ------------------------------------------------------------------ *)
(** ** Theorems on the Filter Engine *)

(** C1 (as stated, refuted).  An event whose magnitude is [null] is kept
    by the full-range criteria, although its magnitude is no number
    within [0, 10]: the output is not exactly the events whose magnitude
    is a number of the range.  The keyword is empty, so [toLowerCase] is
    not called. *)
Lemma null_magnitude_passes_filter :
  In unrated (filteredEarthquakes JS.asciiLower fullRange [unrated]) /\
  ~ numberWithin (mag (properties unrated))
      (minMagnitude fullRange) (maxMagnitude fullRange) /\
  ~ satisfies_as_numbers JS.asciiLower fullRange unrated.
Proof.
  assert (N : ~ numberWithin (mag (properties unrated))
                  (minMagnitude fullRange) (maxMagnitude fullRange)).
  { intros (q & H & _). discriminate. }
  split; [left; reflexivity|]. split; [exact N|].
  intros (H & _). exact (N H).
Qed.

(** C1 (amended).  For every collection, all criteria and every
    [toLowerCase], the output of the filter lists exactly the input
    events that satisfy the four clauses, position by position and in
    the order of the input: the magnitude, read as a number, lies within
    its range; the depth, which is the third coordinate, read as a
    number, lies within its range; and the keyword is empty or the lower
    case of the place (the empty string when the place is missing)
    contains the lower case of the keyword.  A number is read as itself
    and [null] as 0; a missing magnitude or depth lies within no range. *)
Theorem filter_sound_complete_ordered (toLowerCase : string -> string)
  (c : Criteria) (earthquakes : list Feature) :
  Selects (satisfies toLowerCase c) earthquakes
          (filteredEarthquakes toLowerCase c earthquakes) /\
  (forall e, In e (filteredEarthquakes toLowerCase c earthquakes) <->
             In e earthquakes /\ satisfies toLowerCase c e) /\
  (forall m lo hi, within (JS.VNum m) lo hi <-> (lo <= m)%Q /\ (m <= hi)%Q) /\
  (forall lo hi, within JS.VNull lo hi <-> (lo <= 0)%Q /\ (0 <= hi)%Q) /\
  (forall lo hi, ~ within JS.VUndefined lo hi).
Proof.
  split; [|split; [|split; [|split]]].
  - apply filter_Selects, keeps_satisfies.
  - intros e. unfold filteredEarthquakes.
    rewrite filter_In, keeps_satisfies. reflexivity.
  - intros m lo hi. unfold within. split.
    + intros (q & E & H). now inversion E; subst.
    + intros H. exists m. split; [constructor | exact H].
  - intros lo hi. unfold within. split.
    + intros (q & E & H). now inversion E; subst.
    + intros H. exists 0%Q. split; [constructor | exact H].
  - intros lo hi (q & E & _). inversion E.
Qed.

Lemma filter_all_iff {A : Type} (f : A -> bool) (l : list A) :
  filter f l = l <-> Forall (fun x => f x = true) l.
Proof.
  induction l as [|x l IH]; simpl.
  - split; [constructor | reflexivity].
  - destruct (f x) eqn:E.
    + split.
      * intros H. injection H as H. constructor; [exact E | now apply IH].
      * intros H. inversion H; subst. f_equal. now apply IH.
    + split.
      * intros H. exfalso.
        assert (L : (List.length (filter f l) <= List.length l)%nat)
          by apply filter_length_le.
        rewrite H in L. simpl in L. lia.
      * intros H. inversion H; subst. congruence.
Qed.

Lemma filter_none {A : Type} (f : A -> bool) (l : list A) :
  (forall x, f x = false) -> filter f l = [].
Proof.
  intros H. induction l as [|x l IH]; simpl; [reflexivity|].
  now rewrite H.
Qed.

(** The events within the ranges of the full-range criteria. *)
Lemma satisfies_fullRange (toLowerCase : string -> string) (e : Feature) :
  satisfies toLowerCase fullRange e <->
  within (mag (properties e)) 0 10 /\
  within (at_index (coordinates (geometry e)) 2) 0 700.
Proof.
  unfold satisfies. rewrite depth_within. simpl. tauto.
Qed.

(** C5 (as stated, refuted).  The full-range criteria drop an event of
    magnitude -1/2: the filter is not the identity on the collection
    that holds this event alone.  The keyword is empty, so
    [toLowerCase] is not called. *)
Lemma fullRange_drops_negative_magnitude :
  filteredEarthquakes JS.asciiLower fullRange [microquake] = [] /\
  filteredEarthquakes JS.asciiLower fullRange [microquake] <> [microquake].
Proof.
  split; [reflexivity | discriminate].
Qed.

(** C5 (amended).  The filter with the full-range criteria keeps, in
    order, exactly the events whose magnitude lies within [0, 10] and
    whose depth lies within [0, 700]; it returns the collection itself
    if and only if every event of the collection lies within both
    ranges. *)
Theorem fullRange_identity_iff (toLowerCase : string -> string)
  (earthquakes : list Feature) :
  Selects (fun e => within (mag (properties e)) 0 10 /\
                    within (at_index (coordinates (geometry e)) 2) 0 700)
          earthquakes (filteredEarthquakes toLowerCase fullRange earthquakes) /\
  (filteredEarthquakes toLowerCase fullRange earthquakes = earthquakes <->
   Forall (fun e => within (mag (properties e)) 0 10 /\
                    within (at_index (coordinates (geometry e)) 2) 0 700)
          earthquakes).
Proof.
  split.
  - apply filter_Selects. intros e.
    rewrite keeps_satisfies. apply satisfies_fullRange.
  - unfold filteredEarthquakes. rewrite filter_all_iff.
    rewrite !Forall_forall. split; intros H e He.
    + apply (satisfies_fullRange toLowerCase), keeps_satisfies, H, He.
    + apply keeps_satisfies, satisfies_fullRange, H, He.
Qed.

(** C6.  When the minimum of the magnitude range exceeds its maximum,
    the filter returns the empty collection, whatever the events and the
    other criteria are. *)
Theorem crossed_magnitude_range_empty (toLowerCase : string -> string)
  (c : Criteria) (earthquakes : list Feature) :
  (maxMagnitude c < minMagnitude c)%Q ->
  filteredEarthquakes toLowerCase c earthquakes = [].
Proof.
  intros Hx. apply filter_none. intros e.
  destruct (keeps toLowerCase c e) eqn:K; [|reflexivity].
  apply keeps_satisfies in K. destruct K as [(q & _ & Hlo & Hhi) _].
  exfalso. apply (Qlt_not_le _ _ Hx). now apply Qle_trans with q.
Qed.

(** The theorem at the sliders 7 and 3 and the scenario events. *)
Lemma crossed_magnitude_range_empty_witness :
  (maxMagnitude crossed < minMagnitude crossed)%Q /\
  filteredEarthquakes JS.asciiLower crossed scenario = [].
Proof.
  split; [reflexivity|].
  apply (crossed_magnitude_range_empty JS.asciiLower crossed scenario).
  reflexivity.
Defined.

(* ------------------------------------------------------------------ *)
(** ** Theorems on the Aggregator *)

Lemma Qltb_true_iff (x y : Q) : JS.Qltb x y = true <-> (x < y)%Q.
Proof.
  unfold JS.Qltb. rewrite negb_true_iff. split.
  - intros H. apply Qnot_le_lt. intros L.
    apply Qle_bool_iff in L. congruence.
  - intros H. destruct (Qle_bool y x) eqn:E; [|reflexivity].
    apply Qle_bool_iff in E. exfalso. exact (Qlt_not_le _ _ H E).
Qed.

Lemma lt_Fin (v : JS.value) (q hi : Q) :
  JS.ToNumber v = JS.Fin q -> (JS.lt v (JS.VNum hi) = true <-> (q < hi)%Q).
Proof.
  intros H. unfold JS.lt. rewrite H. simpl.
  rewrite <- Qltb_true_iff. destruct (JS.Qltb q hi); split; congruence.
Qed.

Lemma ge_Fin (v : JS.value) (q lo : Q) :
  JS.ToNumber v = JS.Fin q -> (JS.ge v (JS.VNum lo) = true <-> (lo <= q)%Q).
Proof.
  intros H. rewrite ge_within_lo. split.
  - intros (q' & Hq & Hle). rewrite H in Hq. now injection Hq as <-.
  - intros Hle. eauto.
Qed.

(** A magnitude with a finite numeric reading falls in exactly one band. *)
Lemma finite_inOneBand (e : Feature) (q : Q) :
  JS.ToNumber (mag (properties e)) = JS.Fin q -> inOneBand e.
Proof.
  intros H. exists q. unfold isHigh, isMed, isLow, strong, moderate, minor.
  rewrite andb_true_iff, !(ge_Fin _ q _ H), !(lt_Fin _ q _ H).
  repeat split; try tauto.
  destruct (Qlt_le_dec q 3) as [L3|G3].
  - right. right. repeat split.
    + intros G5. apply (Qlt_not_le _ _ L3).
      apply Qle_trans with 5%Q; [discriminate | exact G5].
    + intros [G3 _]. exact (Qlt_not_le _ _ L3 G3).
    + exact L3.
  - destruct (Qlt_le_dec q 5) as [L5|G5].
    + right. left. repeat split; auto.
      * intros G5. exact (Qlt_not_le _ _ L5 G5).
      * intros L3. exact (Qlt_not_le _ _ L3 G3).
    + left. repeat split; auto.
      * intros [_ L5]. exact (Qlt_not_le _ _ L5 G5).
      * intros L3. exact (Qlt_not_le _ _ L3 G3).
Qed.

(** Every event that the filter keeps has a finite magnitude reading. *)
Lemma filtered_inOneBand (toLowerCase : string -> string) (c : Criteria)
  (earthquakes : list Feature) :
  Forall inOneBand (filteredEarthquakes toLowerCase c earthquakes).
Proof.
  apply Forall_forall. intros e He.
  apply filter_In in He. destruct He as [_ K].
  apply keeps_ranges in K. destruct K as [M _].
  apply within_ToNumber in M. destruct M as (q & Hq & _).
  now apply finite_inOneBand with q.
Qed.

Lemma bands_sum (fs : list Feature) :
  Forall inOneBand fs ->
  (highMagCount fs + medMagCount fs + lowMagCount fs = List.length fs)%nat.
Proof.
  unfold highMagCount, medMagCount, lowMagCount, magnitudes.
  induction 1 as [|e fs He _ IH]; [reflexivity|].
  destruct He as (q & _ & Hh & Hm & Hl & Hx). simpl.
  destruct (isHigh (mag (properties e))) eqn:Eh,
           (isMed (mag (properties e))) eqn:Em,
           (isLow (mag (properties e))) eqn:El; simpl; try lia;
    exfalso; intuition congruence.
Qed.

Lemma readingOf_ToNumber (e : Feature) (q : Q) :
  JS.ToNumber (mag (properties e)) = JS.Fin q -> readingOf e = Some q.
Proof.
  unfold readingOf. destruct (mag (properties e)); simpl;
    intros H; try discriminate; now injection H as <-.
Qed.

(** On an event with a finite magnitude reading, the three tests of the
    code are the three tests of the bands on that reading. *)
Lemma tests_on_reading (e : Feature) (q : Q) :
  JS.ToNumber (mag (properties e)) = JS.Fin q ->
  isHigh (mag (properties e)) = isStrong (readingOf e) /\
  isMed (mag (properties e)) = isModerate (readingOf e) /\
  isLow (mag (properties e)) = isMinor (readingOf e).
Proof.
  intros H. rewrite (readingOf_ToNumber e q H).
  unfold isHigh, isMed, isLow, JS.ge, JS.lt. rewrite H. simpl.
  unfold JS.Qltb. destruct (Qle_bool 5 q), (Qle_bool 3 q); repeat split.
Qed.

Lemma counts_on_readings (fs : list Feature) :
  Forall inOneBand fs ->
  highMagCount fs = countOf isStrong readingOf fs /\
  medMagCount fs = countOf isModerate readingOf fs /\
  lowMagCount fs = countOf isMinor readingOf fs.
Proof.
  unfold highMagCount, medMagCount, lowMagCount, magnitudes, countOf.
  induction 1 as [|e fs (q & Hq & _) _ (IH1 & IH2 & IH3)];
    [repeat split|].
  destruct (tests_on_reading e q Hq) as (T1 & T2 & T3).
  cbn [map filter]. rewrite T1, T2, T3.
  destruct (isStrong (readingOf e)), (isModerate (readingOf e)),
           (isMinor (readingOf e)); cbn [List.length];
    rewrite ?IH1, ?IH2, ?IH3; repeat split.
Qed.

Lemma band_tests (q : Q) :
  (isStrong (Some q) = true <-> strong q) /\
  (isModerate (Some q) = true <-> moderate q) /\
  (isMinor (Some q) = true <-> minor q).
Proof.
  unfold isStrong, isModerate, isMinor, strong, moderate, minor.
  rewrite andb_true_iff, !negb_true_iff, !Qle_bool_iff.
  assert (N : forall x, Qle_bool x q = false <-> (q < x)%Q).
  { intros x. split.
    - intros H. apply Qnot_le_lt. intros L.
      apply Qle_bool_iff in L. congruence.
    - intros H. destruct (Qle_bool x q) eqn:E; [|reflexivity].
      apply Qle_bool_iff in E. exfalso. exact (Qlt_not_le _ _ H E). }
  rewrite !N. tauto.
Qed.

(** C2 (as stated, refuted).  An event without magnitude passes the
    full-range filter with an event of magnitude 4.  The report counts it
    as minor, although no event of the collection has a magnitude below
    3; counted over the magnitudes that are numbers, the three bands hold
    one event of the two. *)
Lemma null_magnitude_counted_minor :
  filteredEarthquakes JS.asciiLower fullRange [unrated; rated4] =
    [unrated; rated4] /\
  (exists r,
     stats exact_add exact_div no_text [unrated; rated4] None = Some r /\
     r_total r = 2%nat /\ r_lowMagCount r = 1%nat) /\
  countOf isMinor magnitudeOf [unrated; rated4] = 0%nat /\
  (countOf isStrong magnitudeOf [unrated; rated4] +
   countOf isModerate magnitudeOf [unrated; rated4] +
   countOf isMinor magnitudeOf [unrated; rated4] = 1)%nat.
Proof.
  split; [reflexivity|]. split; [|split; reflexivity].
  eexists. split; [reflexivity|]. split; reflexivity.
Qed.

(** C2 (amended).  For every non-empty collection that the filter
    returns, the report exists and its total is the size of the
    collection; with a [null] magnitude read as 0, the strong count is
    the number of events of magnitude at least 5, the moderate count the
    number of events of magnitude at least 3 and below 5, the minor
    count the number of events of magnitude below 3; every event has a
    magnitude reading, which is in exactly one of the three bands; and
    the three counts add up to the total. *)
Theorem band_counts_partition
  (toLowerCase : string -> string)
  (fadd fdiv : JS.number -> JS.number -> JS.number)
  (toFixed2 : JS.number -> string)
  (c : Criteria) (earthquakes : list Feature) (boundaries : option (list Boundary)) :
  filteredEarthquakes toLowerCase c earthquakes <> [] ->
  exists r,
    stats fadd fdiv toFixed2 (filteredEarthquakes toLowerCase c earthquakes)
          boundaries = Some r /\
    r_total r = List.length (filteredEarthquakes toLowerCase c earthquakes) /\
    r_highMagCount r =
      countOf isStrong readingOf (filteredEarthquakes toLowerCase c earthquakes) /\
    r_medMagCount r =
      countOf isModerate readingOf (filteredEarthquakes toLowerCase c earthquakes) /\
    r_lowMagCount r =
      countOf isMinor readingOf (filteredEarthquakes toLowerCase c earthquakes) /\
    Forall (fun e => exists q, readingOf e = Some q /\ inOneOfThree q)
           (filteredEarthquakes toLowerCase c earthquakes) /\
    (forall q, (isStrong (Some q) = true <-> strong q) /\
               (isModerate (Some q) = true <-> moderate q) /\
               (isMinor (Some q) = true <-> minor q)) /\
    (r_highMagCount r + r_medMagCount r + r_lowMagCount r = r_total r)%nat.
Proof.
  intros Hne. unfold stats.
  assert (B := filtered_inOneBand toLowerCase c earthquakes).
  destruct (filteredEarthquakes toLowerCase c earthquakes) as [|e fs] eqn:E;
    [congruence|].
  cbn [List.length Nat.eqb]. eexists. split; [reflexivity|].
  cbn [r_total r_highMagCount r_medMagCount r_lowMagCount].
  destruct (counts_on_readings _ B) as (C1 & C2 & C3).
  split; [reflexivity|]. split; [exact C1|]. split; [exact C2|].
  split; [exact C3|]. split; [|split; [exact band_tests|now apply bands_sum]].
  eapply Forall_impl; [|exact B].
  intros x (q & Hq & _ & _ & _ & Hx). exists q.
  split; [now apply readingOf_ToNumber | exact Hx].
Qed.

(** The theorem at the event without magnitude and the event of
    magnitude 4, under the full-range criteria. *)
Lemma band_counts_partition_witness :
  filteredEarthquakes JS.asciiLower fullRange [unrated; rated4] <> [] /\
  exists r,
    stats exact_add exact_div no_text
          (filteredEarthquakes JS.asciiLower fullRange [unrated; rated4])
          None = Some r /\
    r_total r = 2%nat /\
    r_highMagCount r = 0%nat /\
    r_medMagCount r = 1%nat /\
    r_lowMagCount r = 1%nat.
Proof.
  assert (N : filteredEarthquakes JS.asciiLower fullRange [unrated; rated4] <> [])
    by discriminate.
  split; [exact N|].
  destruct (band_counts_partition JS.asciiLower exact_add exact_div no_text
              fullRange [unrated; rated4] None N)
    as (r & H & T & C1 & C2 & C3 & _).
  exists r. split; [exact H|]. split; [exact T|].
  split; [exact C1|]. split; [exact C2 | exact C3].
Defined.

(** C4.  For the empty filtered collection [stats] returns its [null]
    marker and no report, and the panel renders the no-matches message;
    for a collection with at least one event [stats] returns a report,
    which the panel renders. *)
Theorem empty_set_gives_marker
  (fadd fdiv : JS.number -> JS.number -> JS.number)
  (toFixed2 : JS.number -> string) (boundaries : option (list Boundary)) :
  stats fadd fdiv toFixed2 [] boundaries = None /\
  ExplanationPanel fadd fdiv toFixed2 [] boundaries =
    NoMatches "No earthquakes match the current filters." /\
  (forall e fs, exists r,
      stats fadd fdiv toFixed2 (e :: fs) boundaries = Some r /\
      ExplanationPanel fadd fdiv toFixed2 (e :: fs) boundaries = ReportView r).
Proof.
  split; [reflexivity|]. split; [reflexivity|].
  intros e fs. unfold ExplanationPanel, stats. cbn [List.length Nat.eqb].
  eexists. split; reflexivity.
Qed.

(** *** Events without magnitude *)

Lemma ToNumber_nullAsZero (e : Feature) :
  JS.ToNumber (mag (properties (nullAsZero e))) =
  JS.ToNumber (mag (properties e)).
Proof.
  unfold nullAsZero. destruct (mag (properties e)) eqn:E; simpl;
    rewrite ?E; reflexivity.
Qed.

Lemma geometry_nullAsZero (e : Feature) :
  geometry (nullAsZero e) = geometry e.
Proof.
  unfold nullAsZero. destruct (mag (properties e)); reflexivity.
Qed.

Lemma placeKey_nullAsZero (e : Feature) :
  placeKey (nullAsZero e) = placeKey e.
Proof.
  unfold nullAsZero, placeKey. destruct (mag (properties e)); reflexivity.
Qed.

Lemma coerced_nullAsZero (fs : list Feature) :
  map JS.ToNumber (magnitudes (map nullAsZero fs)) =
  map JS.ToNumber (magnitudes fs).
Proof.
  unfold magnitudes. rewrite !map_map.
  apply map_ext. intros e. apply ToNumber_nullAsZero.
Qed.

(** A test that reads a value through [ToNumber] only counts the same on
    lists with the same numeric readings. *)
Lemma count_coerced (f : JS.value -> bool) (l l' : list JS.value) :
  (forall a b, JS.ToNumber a = JS.ToNumber b -> f a = f b) ->
  map JS.ToNumber l = map JS.ToNumber l' ->
  List.length (filter f l) = List.length (filter f l').
Proof.
  intros Hf. revert l'. induction l as [|a l IH]; intros [|b l'] H;
    try discriminate; [reflexivity|].
  simpl in H. injection H as Hab Hl. simpl.
  rewrite (Hf a b Hab). destruct (f b); simpl; auto.
Qed.

Lemma isHigh_coerced (a b : JS.value) :
  JS.ToNumber a = JS.ToNumber b -> isHigh a = isHigh b.
Proof. unfold isHigh, JS.ge. now intros ->. Qed.

Lemma isMed_coerced (a b : JS.value) :
  JS.ToNumber a = JS.ToNumber b -> isMed a = isMed b.
Proof. unfold isMed, JS.ge, JS.lt. now intros ->. Qed.

Lemma isLow_coerced (a b : JS.value) :
  JS.ToNumber a = JS.ToNumber b -> isLow a = isLow b.
Proof. unfold isLow, JS.lt. now intros ->. Qed.

Lemma sumMag_coerced (fadd : JS.number -> JS.number -> JS.number)
  (ms : list JS.value) :
  sumMag fadd ms = fold_left fadd (map JS.ToNumber ms) (JS.Fin 0).
Proof.
  unfold sumMag. generalize (JS.Fin 0).
  induction ms as [|m ms IH]; intros acc; simpl; [reflexivity | apply IH].
Qed.

(** C8 (as stated, refuted).  An event without magnitude passes the
    full-range filter, is counted in the minor band and sets the weakest
    magnitude of the report to 0; the same aggregates over the events
    that carry a magnitude are different. *)
Lemma null_magnitude_enters_aggregates :
  filteredEarthquakes JS.asciiLower fullRange [unrated; rated4] =
    [unrated; rated4] /\
  lowMagCount [unrated; rated4] = 1%nat /\
  lowMagCount (filter hasMagnitude [unrated; rated4]) = 0%nat /\
  Math_min (magnitudes [unrated; rated4]) = JS.Fin 0 /\
  Math_min (magnitudes (filter hasMagnitude [unrated; rated4])) = JS.Fin 4 /\
  lowMagCount [unrated; rated4] <>
    lowMagCount (filter hasMagnitude [unrated; rated4]) /\
  Math_min (magnitudes [unrated; rated4]) <>
    Math_min (magnitudes (filter hasMagnitude [unrated; rated4])).
Proof.
  repeat split; try reflexivity; discriminate.
Qed.

(** C8 (amended).  Events whose magnitude is [null] are not excluded:
    every aggregate reads a [null] magnitude as the number 0.  The report
    is the one computed after each [null] magnitude is replaced by 0; and
    an event without magnitude adds one to the total and to the minor
    count, and nothing to the strong and moderate counts. *)
Theorem null_magnitude_read_as_zero
  (fadd fdiv : JS.number -> JS.number -> JS.number)
  (toFixed2 : JS.number -> string)
  (fs : list Feature) (boundaries : option (list Boundary)) :
  stats fadd fdiv toFixed2 fs boundaries =
  stats fadd fdiv toFixed2 (map nullAsZero fs) boundaries /\
  (forall i p t g,
     let e := mkFeature i (mkProperties JS.VNull p t) g in
     List.length (e :: fs) = S (List.length fs) /\
     lowMagCount (e :: fs) = S (lowMagCount fs) /\
     medMagCount (e :: fs) = medMagCount fs /\
     highMagCount (e :: fs) = highMagCount fs).
Proof.
  split.
  - unfold stats. rewrite length_map.
    destruct (List.length fs =? 0)%nat; [reflexivity|].
    f_equal.
    assert (Hc := coerced_nullAsZero fs).
    assert (Hd : depths (map nullAsZero fs) = depths fs).
    { unfold depths. rewrite map_map. apply map_ext.
      intros e. now rewrite geometry_nullAsZero. }
    assert (Hp : topLocations (map nullAsZero fs) = topLocations fs).
    { unfold topLocations, locationCounts. rewrite map_map.
      now rewrite (map_ext _ _ placeKey_nullAsZero). }
    unfold highMagCount, medMagCount, lowMagCount, avgMag, Math_max, Math_min.
    rewrite !sumMag_coerced, length_map, Hc, Hd, Hp.
    rewrite (count_coerced isHigh _ _ isHigh_coerced Hc).
    rewrite (count_coerced isMed _ _ isMed_coerced Hc).
    rewrite (count_coerced isLow _ _ isLow_coerced Hc).
    reflexivity.
  - intros i p t g e. repeat split; reflexivity.
Qed.

(* ------------------------------------------------------------------ *)
(** ** Theorems on the asynchronous callbacks *)

(** C7 (as stated, refuted).  The week is selected while the request of
    the day is in flight; the answer of the week arrives and is shown;
    the answer of the day arrives afterwards and replaces it, although
    the selected window is still the week. *)
Lemma stale_reply_overwrites :
  reachable exact_mul dayArrivesLate /\
  timeRange (ui weekShown) = "all_week"%string /\
  earthquakes (ui weekShown) = weekFeed /\
  In (GetEarthquakes "all_day") (inflight weekShown) /\
  timeRange (ui dayArrivesLate) = "all_week"%string /\
  earthquakes (ui dayArrivesLate) = dayFeed /\
  earthquakes (ui dayArrivesLate) <> earthquakes (ui weekShown).
Proof.
  repeat split; try reflexivity.
  - apply (reachable_step exact_mul weekShown
             (EarthquakesReply "all_day" (Resolved dayFeed))).
    + apply (reachable_step exact_mul weekSelected
               (EarthquakesReply "all_week" (Resolved weekFeed))).
      * apply (reachable_step exact_mul mounted (TimeRangeSelect "all_week")).
        -- apply reachable_mounted.
        -- exact I.
      * simpl. auto.
    + simpl. auto.
  - simpl. auto.
  - discriminate.
Qed.

(** C7 (amended).  A completed response of the events feed is applied
    whatever window is selected at that time: the collection becomes the
    features of the response and the selection is untouched, so the
    collection is always that of the response that completed last; a
    failed request leaves the collection as it was. *)
Theorem reply_applied_unconditionally
  (range : string) (features : list Feature) (w : World) :
  earthquakes (ui (earthquakesReply range (Resolved features) w)) = features /\
  timeRange (ui (earthquakesReply range (Resolved features) w)) = timeRange (ui w) /\
  earthquakes (ui (earthquakesReply range Rejected w)) = earthquakes (ui w) /\
  (forall earlier : list (string * list Feature),
     earthquakes
       (ui (fold_left
              (fun v reply => earthquakesReply (fst reply) (Resolved (snd reply)) v)
              (earlier ++ [(range, features)]) w)) = features).
Proof.
  repeat split.
  intros earlier. rewrite fold_left_app. reflexivity.
Qed.

Lemma issue_changes (r : Request) (w : World) : issue r w <> w.
Proof.
  intros H. apply (f_equal (fun x => List.length (inflight x))) in H.
  simpl in H. rewrite length_app in H. simpl in H. lia.
Qed.

(** C9 (as stated, refuted).  With a query of one space, which is blank,
    [handleSearch] issues a request to the geocoder. *)
Lemma blank_query_is_sent :
  blank (searchLocation (ui spaceTyped)) = true /\
  inflight (handleSearch spaceTyped) =
    inflight spaceTyped ++ [GetPlace " "] /\
  handleSearch spaceTyped <> spaceTyped.
Proof.
  repeat split. discriminate.
Qed.

(** C9 (amended).  [handleSearch] is a no-op exactly for the empty query:
    it then leaves the component, its requests and its coordinates as
    they are.  For every other query, blank ones included, it issues one
    request for that query and changes nothing else. *)
Theorem empty_query_is_noop (w : World) :
  (handleSearch w = w <-> searchLocation (ui w) = ""%string) /\
  (searchLocation (ui w) = ""%string \/
   handleSearch w = issue (GetPlace (searchLocation (ui w))) w) /\
  ui (handleSearch w) = ui w /\
  locationCoords (ui (handleSearch w)) = locationCoords (ui w).
Proof.
  unfold handleSearch.
  destruct (searchLocation (ui w)) as [|a q] eqn:E; simpl.
  - repeat split; auto.
  - repeat split; auto; try discriminate.
    intros H. exfalso. exact (issue_changes _ _ H).
Qed.

(* ------------------------------------------------------------------ *)
(** ** Theorems on the boundaries *)

Lemma exact_mul_triples : TriplesLikeDoubles exact_mul.
Proof.
  split; [reflexivity|]. split; [|reflexivity].
  intros a b H. unfold num_le. simpl. f_equal.
  apply Qltb_false_iff. apply Qmult_le_compat_r; [exact H | discriminate].
Qed.

(* ------------------------------------------------------------------ *)
(** ** The product of doubles: rounding is monotone *)

Lemma Qcompare_Lt (a b : Q) : Qcompare a b = Lt <-> a < b.
Proof. symmetry. apply Qlt_alt. Qed.

Lemma Qcompare_Gt (a b : Q) : Qcompare a b = Gt <-> b < a.
Proof. symmetry. apply Qgt_alt. Qed.

Lemma Qcompare_Eq (a b : Q) : Qcompare a b = Eq <-> a == b.
Proof. symmetry. apply Qeq_alt. Qed.

Lemma nearestEven_bounds (y : Q) :
  (Qfloor y <= Double.nearestEven y <= Qfloor y + 1)%Z.
Proof.
  unfold Double.nearestEven.
  destruct (Qcompare (y - inject_Z (Qfloor y)) (1 # 2)); try lia.
  destruct (Z.even (Qfloor y)); lia.
Qed.

Lemma nearestEven_mono (y1 y2 : Q) :
  y1 <= y2 -> (Double.nearestEven y1 <= Double.nearestEven y2)%Z.
Proof.
  intros H. pose proof (Qfloor_resp_le _ _ H) as F.
  pose proof (nearestEven_bounds y1) as B1.
  pose proof (nearestEven_bounds y2) as B2.
  destruct (Z.eq_dec (Qfloor y1) (Qfloor y2)) as [E|N]; [|lia].
  unfold Double.nearestEven in *. rewrite <- E in *.
  assert (D : y1 - inject_Z (Qfloor y1) <= y2 - inject_Z (Qfloor y1)).
  { apply Qplus_le_l with (z := inject_Z (Qfloor y1)). ring_simplify. exact H. }
  destruct (Qcompare (y1 - inject_Z (Qfloor y1)) (1 # 2)) eqn:C1;
    destruct (Qcompare (y2 - inject_Z (Qfloor y1)) (1 # 2)) eqn:C2;
    try (destruct (Z.even (Qfloor y1)); lia); try lia; exfalso.
  - apply Qcompare_Eq in C1. apply Qcompare_Lt in C2.
    rewrite C1 in D. exact (Qlt_not_le _ _ C2 D).
  - apply Qcompare_Gt in C1. apply Qcompare_Eq in C2.
    rewrite C2 in D. exact (Qlt_not_le _ _ C1 D).
  - apply Qcompare_Gt in C1. apply Qcompare_Lt in C2.
    apply (Qlt_not_le _ _ C2).
    apply Qle_trans with (y1 - inject_Z (Qfloor y1)); [|exact D].
    now apply Qlt_le_weak.
Qed.

Lemma nearestEven_ge (y : Q) (n : Z) :
  inject_Z n <= y -> (n <= Double.nearestEven y)%Z.
Proof.
  intros H. pose proof (Qfloor_resp_le _ _ H) as F. rewrite Qfloor_Z in F.
  pose proof (nearestEven_bounds y). lia.
Qed.

Lemma nearestEven_le (y : Q) (n : Z) :
  y <= inject_Z n -> (Double.nearestEven y <= n)%Z.
Proof.
  intros H. pose proof (Qfloor_resp_le _ _ H) as F. rewrite Qfloor_Z in F.
  pose proof (nearestEven_bounds y) as B.
  destruct (Z.eq_dec (Qfloor y) n) as [E|N]; [|lia].
  unfold Double.nearestEven. rewrite E.
  assert (L : y - inject_Z n < 1 # 2).
  { apply Qle_lt_trans with 0; [|reflexivity].
    apply Qplus_le_l with (z := inject_Z n). ring_simplify. exact H. }
  apply Qcompare_Lt in L. rewrite L. lia.
Qed.

Lemma two_pow_pos (k : Z) : 0 < 2 ^ k.
Proof. now apply Qpower_0_lt. Qed.

Lemma two_pow_Z (k : Z) : (0 <= k)%Z -> 2 ^ k == inject_Z (2 ^ k).
Proof. intros H. now rewrite Zpower_Qpower. Qed.

Lemma ilog2_spec (x : Q) :
  0 < x -> 2 ^ Double.ilog2 x <= x /\ x < 2 ^ (Double.ilog2 x + 1).
Proof.
  intros Hx. unfold Double.ilog2.
  destruct x as [n d]. cbn [Qnum Qden].
  assert (Hn : (0 < n)%Z).
  { unfold Qlt in Hx. simpl in Hx. lia. }
  set (a := Z.log2 n). set (b := Z.log2 (Z.pos d)).
  pose proof (Z.log2_spec n Hn) as [A1 A2]. fold a in A1, A2.
  pose proof (Z.log2_spec (Z.pos d) eq_refl) as [B1 B2]. fold b in B1, B2.
  assert (Ha : (0 <= a)%Z) by apply Z.log2_nonneg.
  assert (Hb : (0 <= b)%Z) by apply Z.log2_nonneg.
  assert (PA : (0 < 2 ^ a)%Z) by (apply Z.pow_pos_nonneg; lia).
  assert (PB : (0 < 2 ^ b)%Z) by (apply Z.pow_pos_nonneg; lia).
  assert (U : n # d < 2 ^ (a - b + 1)).
  { replace (a - b + 1)%Z with (Z.succ a - b)%Z by lia.
    rewrite Qpower_minus by discriminate.
    apply Qlt_shift_div_l; [apply two_pow_pos|].
    rewrite !two_pow_Z by lia.
    unfold Qlt. simpl. nia. }
  assert (L : 2 ^ (a - b - 1) < n # d).
  { replace (a - b - 1)%Z with (a - Z.succ b)%Z by lia.
    rewrite Qpower_minus by discriminate.
    apply Qlt_shift_div_r; [apply two_pow_pos|].
    rewrite !two_pow_Z by lia.
    unfold Qlt. simpl. nia. }
  destruct (Qle_bool (2 ^ (a - b)) (n # d)) eqn:E.
  - apply Qle_bool_iff in E. split; [exact E | exact U].
  - assert (E' : n # d < 2 ^ (a - b)).
    { apply Qnot_le_lt. intros H. apply Qle_bool_iff in H. congruence. }
    split; [now apply Qlt_le_weak|].
    now replace (a - b - 1 + 1)%Z with (a - b)%Z by lia.
Qed.

Lemma ilog2_mono (x y : Q) :
  0 < x -> x <= y -> (Double.ilog2 x <= Double.ilog2 y)%Z.
Proof.
  intros Hx Hxy.
  assert (Hy : 0 < y) by (now apply Qlt_le_trans with x).
  destruct (ilog2_spec x Hx) as [Lx _]. destruct (ilog2_spec y Hy) as [_ Uy].
  assert (H : 2 ^ Double.ilog2 x < 2 ^ (Double.ilog2 y + 1)).
  { apply Qle_lt_trans with x; [exact Lx|]. now apply Qle_lt_trans with y. }
  apply Qpower_lt_compat_l_inv in H; [lia | reflexivity].
Qed.

Lemma scaled_pow (k q : Z) :
  (q <= k)%Z -> 2 ^ k / 2 ^ q == inject_Z (2 ^ (k - q)).
Proof.
  intros H. rewrite <- Qpower_minus by discriminate.
  apply two_pow_Z. lia.
Qed.

Lemma unscaled_pow (k q : Z) :
  (q <= k)%Z -> inject_Z (2 ^ (k - q)) * 2 ^ q == 2 ^ k.
Proof.
  intros H. rewrite <- two_pow_Z by lia.
  rewrite <- Qpower_plus by discriminate.
  now replace (k - q + q)%Z with k by lia.
Qed.

Lemma div_pow_le (x y : Q) (q : Z) : x <= y -> x / 2 ^ q <= y / 2 ^ q.
Proof.
  intros H. unfold Qdiv. apply Qmult_le_compat_r; [exact H|].
  apply Qlt_le_weak, Qinv_lt_0_compat, two_pow_pos.
Qed.

Lemma nearest_le_pow (x : Q) (k : Z) :
  (Double.lastPlace x <= k)%Z -> x <= 2 ^ k -> Double.nearest x <= 2 ^ k.
Proof.
  intros Hk Hx. unfold Double.nearest. set (q := Double.lastPlace x) in *.
  rewrite <- (unscaled_pow k q Hk).
  apply Qmult_le_compat_r; [|apply Qlt_le_weak, two_pow_pos].
  rewrite <- Zle_Qle. apply nearestEven_le.
  rewrite <- (scaled_pow k q Hk). now apply div_pow_le.
Qed.

Lemma nearest_ge_pow (x : Q) (k : Z) :
  (Double.lastPlace x <= k)%Z -> 2 ^ k <= x -> 2 ^ k <= Double.nearest x.
Proof.
  intros Hk Hx. unfold Double.nearest. set (q := Double.lastPlace x) in *.
  rewrite <- (unscaled_pow k q Hk).
  apply Qmult_le_compat_r; [|apply Qlt_le_weak, two_pow_pos].
  rewrite <- Zle_Qle. apply nearestEven_ge.
  rewrite <- (scaled_pow k q Hk). now apply div_pow_le.
Qed.

Lemma nearest_nonneg (x : Q) : 0 <= x -> 0 <= Double.nearest x.
Proof.
  intros Hx. unfold Double.nearest.
  apply Qmult_le_0_compat; [|apply Qlt_le_weak, two_pow_pos].
  change 0 with (inject_Z 0). rewrite <- Zle_Qle. apply nearestEven_ge.
  apply Qle_shift_div_l; [apply two_pow_pos|].
  now rewrite Qmult_0_l.
Qed.

Lemma nearest_mono (x y : Q) :
  0 < x -> x <= y -> Double.nearest x <= Double.nearest y.
Proof.
  intros Hx Hxy.
  assert (Hy : 0 < y) by (now apply Qlt_le_trans with x).
  pose proof (ilog2_mono x y Hx Hxy) as M.
  destruct (ilog2_spec x Hx) as [_ Ux]. destruct (ilog2_spec y Hy) as [Ly _].
  destruct (Z.eq_dec (Double.lastPlace x) (Double.lastPlace y)) as [E|N].
  - unfold Double.nearest. rewrite E.
    apply Qmult_le_compat_r; [|apply Qlt_le_weak, two_pow_pos].
    rewrite <- Zle_Qle. apply nearestEven_mono. now apply div_pow_le.
  - unfold Double.lastPlace in N.
    set (ex := Z.max (Double.ilog2 x) (-1022)) in *.
    assert (Ey : Z.max (Double.ilog2 y) (-1022) = Double.ilog2 y) by lia.
    assert (Hl : (ex + 1 <= Double.ilog2 y)%Z) by lia.
    apply Qle_trans with (2 ^ (ex + 1)).
    + apply nearest_le_pow; [unfold Double.lastPlace; lia|].
      apply Qlt_le_weak. apply Qlt_le_trans with (2 ^ (Double.ilog2 x + 1));
        [exact Ux|].
      apply Qpower_le_compat_l; [lia | discriminate].
    + apply Qle_trans with (2 ^ Double.ilog2 y).
      * apply Qpower_le_compat_l; [lia | discriminate].
      * apply nearest_ge_pow; [unfold Double.lastPlace; lia | exact Ly].
Qed.

Lemma num_le_Fin (a b : Q) : a <= b -> num_le (JS.Fin a) (JS.Fin b).
Proof.
  intros H. unfold num_le. simpl. f_equal. unfold JS.Qltb.
  apply negb_false_iff. now apply Qle_bool_iff.
Qed.

Lemma round_mono (x y : Q) :
  x <= y -> num_le (Double.round x) (Double.round y).
Proof.
  intros H. unfold Double.round.
  destruct (Qcompare x 0) eqn:Cx; destruct (Qcompare y 0) eqn:Cy;
    first [apply -> Qcompare_Eq in Cx | apply -> Qcompare_Lt in Cx
          | apply -> Qcompare_Gt in Cx];
    first [apply -> Qcompare_Eq in Cy | apply -> Qcompare_Lt in Cy
          | apply -> Qcompare_Gt in Cy].
  - now apply num_le_Fin.
  - exfalso. rewrite Cx in H. exact (Qlt_not_le _ _ Cy H).
  - destruct (Qle_bool (2 ^ 1024) (Double.nearest y)); [reflexivity|].
    apply num_le_Fin, nearest_nonneg. now apply Qlt_le_weak.
  - assert (N : 0 <= Double.nearest (- x)).
    { apply nearest_nonneg. apply Qlt_le_weak.
      apply Qopp_lt_compat in Cx. exact Cx. }
    destruct (Qle_bool (2 ^ 1024) (Double.nearest (- x))); [reflexivity|].
    apply num_le_Fin. apply Qopp_le_compat in N. exact N.
  - assert (Px : 0 < - x) by (apply Qopp_lt_compat in Cx; exact Cx).
    assert (Py : 0 < - y) by (apply Qopp_lt_compat in Cy; exact Cy).
    assert (M : Double.nearest (- y) <= Double.nearest (- x)).
    { apply nearest_mono; [exact Py | now apply Qopp_le_compat]. }
    destruct (Qle_bool (2 ^ 1024) (Double.nearest (- x))) eqn:Ox.
    + destruct (Qle_bool (2 ^ 1024) (Double.nearest (- y))); reflexivity.
    + destruct (Qle_bool (2 ^ 1024) (Double.nearest (- y))) eqn:Oy.
      * exfalso. apply Qle_bool_iff in Oy.
        assert (T : Qle_bool (2 ^ 1024) (Double.nearest (- x)) = true).
        { apply Qle_bool_iff. now apply Qle_trans with (Double.nearest (- y)). }
        congruence.
      * apply num_le_Fin. now apply Qopp_le_compat.
  - assert (N : 0 <= Double.nearest (- x)).
    { apply nearest_nonneg. apply Qlt_le_weak.
      apply Qopp_lt_compat in Cx. exact Cx. }
    assert (P : 0 <= Double.nearest y).
    { apply nearest_nonneg. now apply Qlt_le_weak. }
    destruct (Qle_bool (2 ^ 1024) (Double.nearest (- x))),
             (Qle_bool (2 ^ 1024) (Double.nearest y)); try reflexivity.
    apply num_le_Fin. apply Qle_trans with 0; [|exact P].
    apply Qopp_le_compat in N. exact N.
  - exfalso. rewrite Cy in H. exact (Qlt_not_le _ _ Cx H).
  - exfalso. apply (Qlt_not_le _ _ Cx). apply Qle_trans with y; [exact H|].
    now apply Qlt_le_weak.
  - assert (M : Double.nearest x <= Double.nearest y).
    { now apply nearest_mono. }
    destruct (Qle_bool (2 ^ 1024) (Double.nearest y)) eqn:Oy.
    + destruct (Qle_bool (2 ^ 1024) (Double.nearest x)); reflexivity.
    + destruct (Qle_bool (2 ^ 1024) (Double.nearest x)) eqn:Ox.
      * exfalso. apply Qle_bool_iff in Ox.
        assert (T : Qle_bool (2 ^ 1024) (Double.nearest y) = true).
        { apply Qle_bool_iff. now apply Qle_trans with (Double.nearest x). }
        congruence.
      * now apply num_le_Fin.
Qed.

Lemma double_mul_triples : TriplesLikeDoubles Double.mul.
Proof.
  split; [vm_compute; reflexivity|]. split; [|vm_compute; reflexivity].
  intros a b H. cbn [Double.mul]. apply round_mono.
  apply Qmult_le_compat_r; [exact H | discriminate].
Qed.

Lemma thirds_unit_interval : unit_interval thirds.
Proof.
  intros n. split; discriminate.
Qed.

(** The product of doubles at the draws 0, 0.3333333333333333,
    0.6666666666666666 and [1 - 2^-53]: three times the second is the
    double 1, three times the third is the double 2. *)
Example getRandomBoundaryType_doubles :
  getRandomBoundaryType Double.mul 0 = Some "Convergent"%string /\
  getRandomBoundaryType Double.mul third = Some "Divergent"%string /\
  getRandomBoundaryType Double.mul (2 * third) = Some "Transform"%string /\
  getRandomBoundaryType Double.mul lastBelowOne = Some "Transform"%string.
Proof.
  repeat split; vm_compute; reflexivity.
Qed.

Lemma halves_unit_interval : unit_interval halves.
Proof.
  intros n. split; discriminate.
Qed.

(** With a product that triples like the product of doubles, the index
    that [getRandomBoundaryType] computes from a double of [[0, 1)] is 0,
    1 or 2. *)
Lemma getRandomBoundaryType_total
  (fmul : JS.number -> JS.number -> JS.number) (r : Q) :
  TriplesLikeDoubles fmul ->
  (0 <= r)%Q -> (r <= lastBelowOne)%Q ->
  exists kind, In kind threeKinds /\ getRandomBoundaryType fmul r = Some kind.
Proof.
  intros (Z & M & T) H0 H1. unfold getRandomBoundaryType.
  change (JS.Fin (inject_Z (Z.of_nat (List.length types)))) with (JS.Fin 3).
  pose proof (M 0%Q r H0) as Lo. pose proof (M r lastBelowOne H1) as Hi.
  unfold num_le in *.
  destruct (fmul (JS.Fin r) (JS.Fin 3)) as [u| | |],
           (fmul (JS.Fin 0) (JS.Fin 3)) as [z| | |],
           (fmul (JS.Fin lastBelowOne) (JS.Fin 3)) as [t| | |];
    simpl in Z, T, Lo, Hi; try discriminate.
  injection Z as Z. injection T as T. injection Lo as Lo. injection Hi as Hi.
  apply Qltb_false_iff in Z, Lo, Hi. apply Qltb_true_iff in T.
  assert (U0 : (0 <= u)%Q) by (now apply Qle_trans with z).
  assert (U3 : (u < 3)%Q) by (now apply Qle_lt_trans with t).
  assert (Hlo : (0 <= Qfloor u)%Z).
  { change 0%Z with (Qfloor 0). now apply Qfloor_resp_le. }
  assert (Hhi : (Qfloor u < 3)%Z).
  { rewrite Zlt_Qlt. apply Qle_lt_trans with u; [apply Qfloor_le | exact U3]. }
  assert (Hz : Qfloor u = 0%Z \/ Qfloor u = 1%Z \/ Qfloor u = 2%Z) by lia.
  destruct Hz as [-> | [-> | ->]]; simpl; eauto 6.
Qed.

Lemma member_classified (f : RawBoundary) (kind : string) :
  In kind threeKinds -> classified (mkBoundary f (Some kind)).
Proof.
  intros H. split; [eauto|].
  simpl in H. destruct H as [<- | [<- | [<- | []]]];
    split; eexists; reflexivity.
Qed.

Lemma decorate_classified (fmul : JS.number -> JS.number -> JS.number)
  (random : nat -> Q) (n : nat) (features : list RawBoundary) :
  TriplesLikeDoubles fmul ->
  unit_interval random ->
  Forall classified (decorate fmul random n features).
Proof.
  intros Hm Hr. revert n. induction features as [|f fs IH]; intros n; simpl.
  - constructor.
  - constructor; [|apply IH].
    destruct (getRandomBoundaryType_total fmul (random n) Hm) as (k & Hk & ->);
      [apply Hr | apply Hr|].
    now apply member_classified.
Qed.

(** Decoration keeps every feature, in order, and gives the [i]-th
    feature the type drawn from the [i]-th number of [Math.random]. *)
Lemma decorate_maps (fmul : JS.number -> JS.number -> JS.number)
  (random : nat -> Q) (n : nat) (features : list RawBoundary) :
  map raw (decorate fmul random n features) = features /\
  map boundaryType (decorate fmul random n features) =
    map (fun i => getRandomBoundaryType fmul (random i))
        (seq n (List.length features)).
Proof.
  revert n. induction features as [|f fs IH]; intros n; simpl.
  - split; reflexivity.
  - destruct (IH (S n)) as [R T]. rewrite R, T. split; reflexivity.
Qed.

(** What an event does to the boundaries: nothing, unless it is the
    successful end of [fetchPlates]. *)
Lemma plates_handle (fmul : JS.number -> JS.number -> JS.number)
  (ev : Event) (w : World) :
  plates (ui (handle fmul ev w)) = plates (ui w) \/
  exists features random,
    ev = PlatesReply (Resolved features) random /\
    plates (ui (handle fmul ev w)) = Some (decorate fmul random 0 features).
Proof.
  destruct ev; simpl; auto.
  - unfold changeTimeRange. destruct (String.eqb v (timeRange (ui w))); auto.
  - unfold handleSearch.
    destruct (negb (JS.truthy (searchLocation (ui w)))); auto.
  - destruct r; auto.
  - destruct r as [features|]; simpl; eauto.
  - destruct r as [[|c l]|]; auto.
Qed.

(** The boundaries of a reachable world are classified. *)
Lemma loaded_classified (fmul : JS.number -> JS.number -> JS.number)
  (w : World) :
  TriplesLikeDoubles fmul ->
  reachable fmul w ->
  forall features, plates (ui w) = Some features -> Forall classified features.
Proof.
  intros Hm. induction 1 as [|w ev Hw IH Hev]; intros features Hp.
  - discriminate.
  - destruct (plates_handle fmul ev w) as [E | (fs & random & -> & E)].
    + apply IH. congruence.
    + rewrite E in Hp. injection Hp as <-.
      apply decorate_classified; [exact Hm | apply Hev].
Qed.

(** C10.  The host multiplies doubles; of its product by 3 the theorem
    needs that it triples like the product of doubles does (the product
    of 0 is not negative, the product grows with its first factor, and
    the product of the largest double below 1 is below 3), which
    [Double.mul] does.  Then [getRandomBoundaryType] returns one of
    Convergent, Divergent and Transform for every double of [[0, 1)] that
    [Math.random] can return; the successful end of [fetchPlates] loads
    every received feature, in order, each with one of these three types;
    and in every world that a session reaches, once the boundaries are
    loaded each of them carries one of the three types, so that its
    colour and its description are found in the two tables and the
    fallback is not used. *)
Theorem boundaries_stay_classified
  (fmul : JS.number -> JS.number -> JS.number) :
  TriplesLikeDoubles fmul ->
  (forall r, (0 <= r)%Q -> (r <= lastBelowOne)%Q ->
     exists kind, In kind threeKinds /\
                  getRandomBoundaryType fmul r = Some kind) /\
  (forall w features random, unit_interval random ->
     exists loaded,
       plates (ui (handle fmul (PlatesReply (Resolved features) random) w)) =
         Some loaded /\
       map raw loaded = features /\
       Forall classified loaded) /\
  (forall w, reachable fmul w ->
     forall loaded, plates (ui w) = Some loaded ->
       Forall classified loaded).
Proof.
  intros Hm. split; [|split].
  - intros r H0 H1. now apply getRandomBoundaryType_total.
  - intros w features random Hr. eexists. split; [reflexivity|].
    split; [apply (proj1 (decorate_maps fmul random 0 features))
           | now apply decorate_classified].
  - intros w Hw. exact (loaded_classified fmul w Hm Hw).
Qed.

Lemma thirdsShown_reachable : reachable Double.mul thirdsShown.
Proof.
  apply (reachable_step Double.mul mounted
           (PlatesReply (Resolved [ridge; trench]) thirds));
    [exact (reachable_mounted Double.mul)|].
  split; [simpl; auto | exact thirds_unit_interval].
Qed.

(** The theorem at the product of doubles, the draw 0.3333333333333333,
    whose triple is the double 1, and the world in which two boundaries
    have been loaded with this draw. *)
Lemma boundaries_stay_classified_witness :
  TriplesLikeDoubles Double.mul /\
  unit_interval thirds /\
  getRandomBoundaryType Double.mul third = Some "Divergent"%string /\
  (exists kind, In kind threeKinds /\
                getRandomBoundaryType Double.mul third = Some kind) /\
  reachable Double.mul thirdsShown /\
  (exists loaded, plates (ui thirdsShown) = Some loaded /\
                  map raw loaded = [ridge; trench] /\
                  Forall classified loaded).
Proof.
  destruct (boundaries_stay_classified Double.mul double_mul_triples)
    as (Hrandom & Hload & Hreach).
  split; [exact double_mul_triples|].
  split; [exact thirds_unit_interval|].
  split; [vm_compute; reflexivity|]. split; [|split].
  - apply Hrandom; discriminate.
  - exact thirdsShown_reachable.
  - exact (Hload mounted [ridge; trench] thirds thirds_unit_interval).
Defined.

(* ------------------------------------------------------------------ *)
(** ** Theorems on the ranking of places *)

Lemma own_None_iff {A : Type} (o : Obj.t A) (k : string) :
  Obj.own o k = None <-> ~ In k (map fst o).
Proof.
  induction o as [|[k' v] o IH]; simpl.
  - tauto.
  - destruct (String.eqb_spec k' k) as [->|N].
    + split; [discriminate | tauto].
    + rewrite IH. tauto.
Qed.

Lemma set_keys_present {A : Type} (o : Obj.t A) (k : string) (v : A) :
  In k (map fst o) -> map fst (Obj.set o k v) = map fst o.
Proof.
  induction o as [|[k' v'] o IH]; simpl; [tauto|].
  destruct (String.eqb_spec k' k) as [->|N]; simpl; [reflexivity|].
  intros [E | H]; [congruence | now rewrite IH].
Qed.

Lemma set_keys_absent {A : Type} (o : Obj.t A) (k : string) (v : A) :
  ~ In k (map fst o) -> Obj.set o k v = o ++ [(k, v)].
Proof.
  induction o as [|[k' v'] o IH]; simpl; [reflexivity|].
  destruct (String.eqb_spec k' k) as [->|N]; [tauto|].
  intros H. rewrite IH; tauto.
Qed.

Lemma own_set {A : Type} (o : Obj.t A) (k x : string) (v : A) :
  Obj.own (Obj.set o k v) x = if String.eqb k x then Some v else Obj.own o x.
Proof.
  induction o as [|[k' v'] o IH]; simpl.
  - reflexivity.
  - destruct (String.eqb_spec k' k) as [->|N]; simpl.
    + destruct (String.eqb k x); reflexivity.
    + rewrite IH. destruct (String.eqb_spec k' x) as [->|N'];
        [|reflexivity].
      destruct (String.eqb_spec k x); [congruence | reflexivity].
Qed.

(** One step of the counting loop stores one more under the key. *)
Lemma bump_spec (o o' : Obj.t nat) (k : string) :
  bump o k = Some o' -> o' = Obj.set o k (stored o k + 1)%nat.
Proof.
  unfold bump, Obj.get, stored. destruct (Obj.own o k) as [n|].
  - intros H. injection H as <-. destruct n; reflexivity.
  - destruct (Obj.inherited k); [discriminate|]. now intros H; injection H as <-.
Qed.

Lemma bump_plain (o : Obj.t nat) (k : string) :
  Obj.inherited k = false -> exists o', bump o k = Some o'.
Proof.
  intros H. unfold bump, Obj.get. destruct (Obj.own o k); [eauto|].
  rewrite H. eauto.
Qed.

Lemma tally_plain (ks : list string) (o : Obj.t nat) :
  Forall (fun k => Obj.inherited k = false) ks ->
  exists o', tally o ks = Some o'.
Proof.
  intros H. revert o. induction H as [|k ks Hk _ IH]; intros o; simpl.
  - eauto.
  - destruct (bump_plain o k Hk) as (o1 & ->). apply IH.
Qed.

Lemma tally_stored (ks : list string) (o o' : Obj.t nat) (x : string) :
  tally o ks = Some o' ->
  stored o' x = (stored o x + count_occ string_dec ks x)%nat.
Proof.
  revert o. induction ks as [|k ks IH]; intros o; simpl.
  - intros H. injection H as <-. lia.
  - destruct (bump o k) as [o1|] eqn:B; [|discriminate].
    intros H. rewrite (IH _ H). apply bump_spec in B. subst o1.
    unfold stored at 1. rewrite own_set.
    destruct (String.eqb_spec k x) as [->|N].
    + destruct (string_dec x x); [lia | congruence].
    + destruct (string_dec k x); [congruence|]. fold (stored o x). lia.
Qed.

Lemma absent_from_iff (l : list string) (k : string) :
  absent_from l k = true <-> ~ In k l.
Proof.
  unfold absent_from. rewrite negb_true_iff.
  destruct (existsb (String.eqb k) l) eqn:E.
  - apply existsb_exists in E. destruct E as (x & Hx & Ex).
    apply String.eqb_eq in Ex. subst x. split; [discriminate | tauto].
  - split; [|reflexivity]. intros _ H.
    assert (T : existsb (String.eqb k) l = true).
    { apply existsb_exists. exists k. split; [exact H|apply String.eqb_refl]. }
    congruence.
Qed.

Lemma filter_absent_present (l F : list string) (k : string) :
  In k l ->
  filter (absent_from l) (filter (fun y => negb (String.eqb y k)) F) =
  filter (absent_from l) F.
Proof.
  intros Hk. induction F as [|y F IH]; simpl; [reflexivity|].
  destruct (String.eqb_spec y k) as [->|N]; simpl.
  - destruct (absent_from l k) eqn:E; [|exact IH].
    apply absent_from_iff in E. tauto.
  - now rewrite IH.
Qed.

Lemma filter_absent_snoc (l F : list string) (k : string) :
  filter (absent_from (l ++ [k])) F =
  filter (absent_from l) (filter (fun y => negb (String.eqb y k)) F).
Proof.
  induction F as [|y F IH]; simpl; [reflexivity|].
  assert (E : absent_from (l ++ [k]) y =
              negb (String.eqb y k) && absent_from l y).
  { unfold absent_from. rewrite existsb_app. simpl.
    rewrite orb_false_r, negb_orb. apply andb_comm. }
  rewrite E. destruct (String.eqb y k); simpl; [exact IH|].
  destruct (absent_from l y); now rewrite IH.
Qed.

Lemma tally_keys (ks : list string) (o o' : Obj.t nat) :
  tally o ks = Some o' ->
  map fst o' = map fst o ++ filter (absent_from (map fst o)) (firstSeen ks).
Proof.
  revert o. induction ks as [|k ks IH]; intros o; simpl.
  - intros H. injection H as <-. now rewrite app_nil_r.
  - destruct (bump o k) as [o1|] eqn:B; [|discriminate].
    intros H. rewrite (IH _ H). apply bump_spec in B. subst o1.
    destruct (absent_from (map fst o) k) eqn:E.
    + apply absent_from_iff in E.
      rewrite (set_keys_absent _ _ _ E), map_app. simpl.
      rewrite filter_absent_snoc, <- app_assoc. reflexivity.
    + assert (Hin : In k (map fst o)).
      { destruct (in_dec string_dec k (map fst o)) as [I|I]; [exact I|].
        apply absent_from_iff in I. congruence. }
      rewrite (set_keys_present _ _ _ Hin).
      now rewrite filter_absent_present.
Qed.

Lemma firstSeen_In (l : list string) (x : string) :
  In x (firstSeen l) <-> In x l.
Proof.
  induction l as [|y l IH]; simpl; [tauto|].
  rewrite filter_In, IH, negb_true_iff, String.eqb_neq.
  destruct (string_dec y x); [tauto|]. split; [tauto|].
  intros [E|H]; [tauto|]. right. split; [exact H | congruence].
Qed.

Lemma firstSeen_NoDup (l : list string) : NoDup (firstSeen l).
Proof.
  induction l as [|y l IH]; simpl; constructor.
  - rewrite filter_In, negb_true_iff, String.eqb_neq. tauto.
  - now apply NoDup_filter.
Qed.

Lemma own_of_entry {A : Type} (o : Obj.t A) (k : string) (v : A) :
  NoDup (map fst o) -> In (k, v) o -> Obj.own o k = Some v.
Proof.
  induction o as [|[k' v'] o IH]; simpl; [tauto|].
  intros ND [E | H].
  - injection E as -> ->. now rewrite String.eqb_refl.
  - inversion ND as [|? ? Hn ND']; subst.
    destruct (String.eqb_spec k' k) as [->|N].
    + exfalso. apply Hn. apply (in_map fst) in H. exact H.
    + now apply IH.
Qed.

Lemma entries_from_keys {A : Type} (f : string -> A) (o : Obj.t A) :
  (forall k v, In (k, v) o -> v = f k) ->
  o = map (fun k => (k, f k)) (map fst o).
Proof.
  induction o as [|[k v] o IH]; simpl; [reflexivity|].
  intros H. rewrite (H k v) by auto. f_equal. apply IH. intros; apply H; auto.
Qed.

(** The counting loop groups the events by place: one entry per
    distinct place, in the order of first occurrence, with the number of
    its events. *)
(** The key of the counting loop is the place the report groups under. *)
Lemma placeKey_groupedUnder (e : Feature) : placeKey e = groupedUnder e.
Proof.
  unfold placeKey, groupedUnder, JS.or_else.
  destruct (place (properties e)) as [[|c s]|]; reflexivity.
Qed.

Lemma keys_groupedUnder (fs : list Feature) :
  map placeKey fs = map groupedUnder fs.
Proof.
  apply map_ext. exact placeKey_groupedUnder.
Qed.

Lemma occurrences_count (p : string) (fs : list Feature) :
  occurrences p fs = count_occ string_dec (map placeKey fs) p.
Proof.
  unfold occurrences. induction fs as [|e fs IH]; [reflexivity|].
  cbn [filter map count_occ]. rewrite placeKey_groupedUnder.
  destruct (String.eqb_spec (groupedUnder e) p) as [E|N];
    destruct (string_dec (groupedUnder e) p) as [E'|N']; try contradiction;
    cbn [List.length]; now rewrite IH.
Qed.

Lemma plainPlaces_keys (fs : list Feature) :
  plainPlaces fs ->
  Forall (fun k => Obj.inherited k = false) (map placeKey fs).
Proof.
  unfold plainPlaces. intros H. apply Forall_map.
  eapply Forall_impl; [|exact H]. intros e He.
  now rewrite placeKey_groupedUnder.
Qed.

Lemma locationCounts_groups (fs : list Feature) :
  plainPlaces fs ->
  locationCounts fs =
  Some (map (fun p => (p, occurrences p fs)) (distinctPlaces fs)).
Proof.
  intros Hp. unfold locationCounts, distinctPlaces.
  destruct (tally_plain (map placeKey fs) []) as (o & Ho).
  { now apply plainPlaces_keys. }
  rewrite Ho. f_equal. rewrite <- keys_groupedUnder.
  assert (K : map fst o = firstSeen (map placeKey fs)).
  { rewrite (tally_keys _ _ _ Ho). simpl.
    apply forallb_filter_id. apply forallb_forall. reflexivity. }
  rewrite <- K. apply entries_from_keys. intros k v Hin.
  assert (S : stored o k = v).
  { unfold stored. rewrite (own_of_entry o k v); [reflexivity| |exact Hin].
    rewrite K. apply firstSeen_NoDup. }
  rewrite <- S, (tally_stored _ _ _ k Ho), occurrences_count. reflexivity.
Qed.

(** *** The order of the own keys and the sort *)

Lemma insertAsc_perm {A : Type} (key : A -> N) (x : A) (l : list A) :
  Permutation (Obj.insertAsc key x l) (x :: l).
Proof.
  induction l as [|y l IH]; simpl; [reflexivity|].
  destruct (key y <? key x)%N; [|reflexivity].
  rewrite IH. apply perm_swap.
Qed.

Lemma ascending_perm {A : Type} (key : A -> N) (l : list A) :
  Permutation (Obj.ascending key l) l.
Proof.
  induction l as [|x l IH]; simpl; [reflexivity|].
  rewrite insertAsc_perm. now constructor.
Qed.

Lemma insertAsc_sorted {A : Type} (key : A -> N) (x : A) (l : list A) :
  StronglySorted (fun a b => (key a <= key b)%N) l ->
  StronglySorted (fun a b => (key a <= key b)%N) (Obj.insertAsc key x l).
Proof.
  induction 1 as [|y l Hs IH Hy]; simpl.
  - repeat constructor.
  - destruct (key y <? key x)%N eqn:E.
    + apply N.ltb_lt in E. constructor; [exact IH|].
      apply (Permutation_Forall (Permutation_sym (insertAsc_perm key x l))).
      constructor; [lia | exact Hy].
    + apply N.ltb_ge in E. constructor.
      * now constructor.
      * constructor; [exact E|].
        eapply Forall_impl; [|exact Hy]. simpl. intros; lia.
Qed.

Lemma ascending_sorted {A : Type} (key : A -> N) (l : list A) :
  StronglySorted (fun a b => (key a <= key b)%N) (Obj.ascending key l).
Proof.
  induction l as [|x l IH]; simpl; [constructor|].
  now apply insertAsc_sorted.
Qed.

(** The parser of array indices against the numerals. *)
Ltac digit_value :=
  match goal with
  | |- context [Obj.digit ?c] =>
      let v := eval vm_compute in (Obj.digit c) in
      change (Obj.digit c) with v
  end.

Lemma digits_acc (d : Decimal.uint) (acc : positive) :
  Obj.digits (NilEmpty.string_of_uint d) (N.pos acc) =
  Some (N.pos (Pos.of_uint_acc d acc)).
Proof.
  revert acc.
  induction d; intros acc;
    cbn [NilEmpty.string_of_uint Obj.digits Pos.of_uint_acc];
    try reflexivity;
    digit_value; cbv iota; rewrite <- IHd; f_equal; lia.
Qed.

Lemma digits_of_uint (d : Decimal.uint) :
  Obj.digits (NilEmpty.string_of_uint d) 0 = Some (N.of_uint d).
Proof.
  induction d; try reflexivity;
    try (cbn [NilEmpty.string_of_uint Obj.digits]; digit_value;
         cbv iota; exact (digits_acc d _)).
  cbn [NilEmpty.string_of_uint Obj.digits].
  change (Obj.digit "0") with (Some 0%N). cbv iota.
  change (10 * 0 + 0)%N with 0%N. exact IHd.
Qed.

Lemma digits_numeral (s : string) (acc n : N) :
  Obj.digits s acc = Some n -> exists d, s = NilEmpty.string_of_uint d.
Proof.
  revert acc n. induction s as [|c s IH]; intros acc n H.
  - now exists Decimal.Nil.
  - cbn [Obj.digits] in H.
    destruct (Obj.digit c) as [k|] eqn:Hc; [|discriminate].
    destruct (IH _ _ H) as [d ->].
    destruct c as [[] [] [] [] [] [] [] []]; try discriminate Hc;
      first [ now exists (Decimal.D0 d) | now exists (Decimal.D1 d)
            | now exists (Decimal.D2 d) | now exists (Decimal.D3 d)
            | now exists (Decimal.D4 d) | now exists (Decimal.D5 d)
            | now exists (Decimal.D6 d) | now exists (Decimal.D7 d)
            | now exists (Decimal.D8 d) | now exists (Decimal.D9 d) ].
Qed.

Lemma string_of_uint_empty (d : Decimal.uint) :
  NilEmpty.string_of_uint d = ""%string -> d = Decimal.Nil.
Proof. now destruct d. Qed.

(** [Obj.arrayIndex] accepts exactly the numerals of the integers up to
    [2^32 - 2], and returns the integer. *)
Lemma arrayIndex_spec (p : string) (n : N) :
  Obj.arrayIndex p = Some n <-> IsArrayIndex p n.
Proof.
  unfold IsArrayIndex, numeral. split.
  - intros H.
    assert (exists d, p = NilEmpty.string_of_uint d /\ Decimal.unorm d = d
                      /\ N.of_uint d = n /\ (n <= 4294967294)%N)
      as (d & -> & Hd & <- & Hn).
    { unfold Obj.arrayIndex in H.
      destruct p as [|c rest]; [discriminate|].
      assert (Hz : c = "0"%char -> rest = ""%string).
      { intros ->. destruct rest; [reflexivity | discriminate]. }
      assert (H' : match Obj.digits (String c rest) 0 with
                   | Some n0 => if (n0 <=? 4294967294)%N then Some n0 else None
                   | None => None end = Some n).
      { destruct c as [[] [] [] [] [] [] [] []]; try exact H.
        destruct rest; [exact H | discriminate]. }
      clear H.
      destruct (Obj.digits (String c rest) 0) as [m|] eqn:Hm; [|discriminate].
      destruct (N.leb_spec m 4294967294); [|discriminate].
      injection H' as ->.
      destruct (digits_numeral _ _ _ Hm) as [d Hd].
      exists d. rewrite Hd in Hm. rewrite digits_of_uint in Hm.
      injection Hm as Hm. repeat split; auto.
      destruct d; try reflexivity.
      - discriminate.
      - cbn [NilEmpty.string_of_uint] in Hd. injection Hd as Hc Hr.
        apply Hz in Hc. subst rest. symmetry in Hr.
        apply string_of_uint_empty in Hr. now subst. }
    split; [|exact Hn].
    now rewrite DecimalN.Unsigned.to_of, Hd.
  - intros [-> Hn].
    assert (Hd : Decimal.unorm (N.to_uint n) = N.to_uint n).
    { pose proof (DecimalN.Unsigned.to_of (N.to_uint n)) as T.
      rewrite DecimalN.Unsigned.of_to in T. now symmetry. }
    assert (Hv : Obj.digits (NilEmpty.string_of_uint (N.to_uint n)) 0 = Some n).
    { now rewrite digits_of_uint, DecimalN.Unsigned.of_to. }
    unfold Obj.arrayIndex.
    destruct (N.to_uint n) as [|d|d|d|d|d|d|d|d|d|d] eqn:E;
      try (cbn [NilEmpty.string_of_uint] in *; rewrite Hv;
           apply N.leb_le in Hn; now rewrite Hn).
    + now destruct (DecimalFacts.unorm_nonnil Decimal.Nil).
    + assert (d = Decimal.Nil) as ->.
      { unfold Decimal.unorm in Hd.
        destruct (Decimal.nzhead (Decimal.D0 d)) eqn:Hh;
          try (injection Hd as <-; reflexivity); try discriminate.
        now destruct (DecimalFacts.nzhead_nonzero _ _ Hh). }
      cbn [NilEmpty.string_of_uint] in *. rewrite Hv.
      apply N.leb_le in Hn; now rewrite Hn.
Qed.

Lemma isIndex_indexNamed (e : string * nat) :
  Obj.isIndex (fst e) = true <-> indexNamed e.
Proof.
  unfold Obj.isIndex, indexNamed. split.
  - destruct (Obj.arrayIndex (fst e)) as [n|] eqn:E; [|discriminate].
    intros _. exists n. now apply arrayIndex_spec.
  - intros [n H]. apply arrayIndex_spec in H. now rewrite H.
Qed.

Lemma indexOf_IsArrayIndex (p : string) (n : N) :
  IsArrayIndex p n -> Obj.indexOf p = n.
Proof.
  intros H. apply arrayIndex_spec in H. unfold Obj.indexOf. now rewrite H.
Qed.

Lemma StronglySorted_weaken {A : Type} (R S : A -> A -> Prop) (l : list A) :
  (forall a b, R a b -> S a b) -> StronglySorted R l -> StronglySorted S l.
Proof.
  intros H. induction 1 as [|x l Hs IH Hx]; constructor; [exact IH|].
  eapply Forall_impl; [|exact Hx]. intros b. apply H.
Qed.

Lemma entries_OwnKeyOrder (o : Obj.t nat) : OwnKeyOrder o (Obj.entries o).
Proof.
  unfold OwnKeyOrder, Obj.entries, Obj.ordered.
  eexists _, (filter (fun e => Obj.isIndex (fst e)) o), _.
  split; [reflexivity|].
  split; [apply filter_Selects; exact isIndex_indexNamed|].
  split; [apply ascending_perm|].
  split.
  - eapply StronglySorted_weaken; [|apply ascending_sorted].
    cbv beta. intros a b H m n Hm Hn.
    now rewrite (indexOf_IsArrayIndex _ _ Hm), (indexOf_IsArrayIndex _ _ Hn) in H.
  - apply filter_Selects. intros e.
    rewrite <- isIndex_indexNamed.
    destruct (Obj.isIndex (fst e)); simpl; split; congruence.
Qed.

Lemma entries_perm {A : Type} (o : Obj.t A) : Permutation (Obj.entries o) o.
Proof.
  unfold Obj.entries, Obj.ordered. rewrite ascending_perm.
  induction o as [|x o IH]; simpl; [reflexivity|].
  destruct (Obj.isIndex (fst x)); simpl.
  - now constructor.
  - rewrite <- Permutation_middle. now constructor.
Qed.

Lemma insert_perm {A : Type} (cmp : A -> A -> Z) (x : A) (l : list A) :
  Permutation (Arr.insert cmp x l) (x :: l).
Proof.
  induction l as [|y l IH]; simpl; [reflexivity|].
  destruct (0 <? cmp x y)%Z; [|reflexivity].
  rewrite IH. apply perm_swap.
Qed.

Lemma sort_perm {A : Type} (cmp : A -> A -> Z) (l : list A) :
  Permutation (Arr.sort cmp l) l.
Proof.
  induction l as [|x l IH]; simpl; [reflexivity|].
  rewrite insert_perm. now constructor.
Qed.

Lemma byCountDesc_pos (x y : string * nat) :
  (0 <? byCountDesc x y)%Z = (snd x <? snd y)%nat.
Proof.
  unfold byCountDesc.
  destruct (snd x <? snd y)%nat eqn:E.
  - apply Nat.ltb_lt in E. apply Z.ltb_lt. lia.
  - apply Nat.ltb_ge in E. apply Z.ltb_ge. lia.
Qed.

Lemma insert_sorted (x : string * nat) (l : list (string * nat)) :
  StronglySorted (fun a b => (snd b <= snd a)%nat) l ->
  StronglySorted (fun a b => (snd b <= snd a)%nat) (Arr.insert byCountDesc x l).
Proof.
  induction 1 as [|y l Hs IH Hy]; simpl.
  - repeat constructor.
  - rewrite byCountDesc_pos. destruct (snd x <? snd y)%nat eqn:E.
    + apply Nat.ltb_lt in E. constructor; [exact IH|].
      apply (Permutation_Forall (Permutation_sym (insert_perm byCountDesc x l))).
      constructor; [lia | exact Hy].
    + apply Nat.ltb_ge in E. constructor.
      * now constructor.
      * constructor; [exact E|].
        eapply Forall_impl; [|exact Hy]. simpl. intros; lia.
Qed.

Lemma sort_sorted (l : list (string * nat)) :
  StronglySorted (fun a b => (snd b <= snd a)%nat) (Arr.sort byCountDesc l).
Proof.
  induction l as [|x l IH]; simpl; [constructor|].
  now apply insert_sorted.
Qed.

(** The sort is stable: the entries of one count keep their order. *)
Lemma insert_ties (n : nat) (x : string * nat) (l : list (string * nat)) :
  filter (fun e => (snd e =? n)%nat) (Arr.insert byCountDesc x l) =
  filter (fun e => (snd e =? n)%nat) (x :: l).
Proof.
  induction l as [|y l IH]; [reflexivity|].
  cbn [Arr.insert]. rewrite byCountDesc_pos.
  destruct (snd x <? snd y)%nat eqn:E; [|reflexivity].
  apply Nat.ltb_lt in E. cbn [filter] in *. rewrite IH.
  destruct (snd x =? n)%nat eqn:Ex, (snd y =? n)%nat eqn:Ey; try reflexivity.
  apply Nat.eqb_eq in Ex, Ey. lia.
Qed.

Lemma sort_ties (n : nat) (l : list (string * nat)) :
  filter (fun e => (snd e =? n)%nat) (Arr.sort byCountDesc l) =
  filter (fun e => (snd e =? n)%nat) l.
Proof.
  induction l as [|x l IH]; [reflexivity|].
  cbn [Arr.sort fold_right]. fold (Arr.sort byCountDesc l).
  rewrite insert_ties. cbn [filter]. now rewrite IH.
Qed.

Lemma sort_RankedFrom (base : list (string * nat)) :
  RankedFrom base (Arr.sort byCountDesc base).
Proof.
  split; [apply sort_perm|]. split; [apply sort_sorted|].
  intros n. apply sort_ties.
Qed.

(** C3 (as stated, refuted).  Two places occur once each, "a" first and
    "7" second; both events pass the full-range filter.  The list of the
    report puts "7" first, whereas the order of first occurrence puts
    "a" first. *)
Lemma index_place_precedes_earlier_place :
  filteredEarthquakes JS.asciiLower fullRange numbered = numbered /\
  topLocations numbered = Some ["7 (1)"; "a (1)"]%string /\
  topLocations_spec numbered = ["a (1)"; "7 (1)"]%string /\
  topLocations numbered <> Some (topLocations_spec numbered).
Proof.
  repeat split; try reflexivity. discriminate.
Qed.

(** C3 (amended).  For every filtered collection whose places do not
    name members of [Object.prototype], the list of top locations groups
    the events by exact place string ("Unknown" standing for an empty or
    missing place), one entry per distinct place with the number of its
    events; its length is the minimum of 5 and the number of distinct
    places; it is sorted by descending count; and entries of equal count
    follow the order of the own keys of the counting object: the places
    that are array indices first, in ascending numeric order, then the
    other places in the order of their first occurrence.  This list is
    the one that the report of a non-empty collection carries. *)
Theorem topLocations_ranking (fs : list Feature) :
  plainPlaces fs ->
  exists base ranking top,
    OwnKeyOrder
      (map (fun p => (p, occurrences p fs)) (distinctPlaces fs))
      base /\
    RankedFrom base ranking /\
    topLocations fs = Some top /\
    top = map entryText (firstn 5 ranking) /\
    List.length top = Nat.min 5 (List.length (distinctPlaces fs)) /\
    NoDup (distinctPlaces fs) /\
    (forall p, In p (distinctPlaces fs) <->
               exists e, In e fs /\ groupedUnder e = p) /\
    (forall fadd fdiv toFixed2 boundaries r,
       stats fadd fdiv toFixed2 fs boundaries = Some r ->
       r_topLocations r = Some top).
Proof.
  intros Hp.
  set (counts := map (fun p => (p, occurrences p fs)) (distinctPlaces fs)).
  exists (Obj.entries counts), (Arr.sort byCountDesc (Obj.entries counts)).
  eexists. split; [apply entries_OwnKeyOrder|].
  split; [apply sort_RankedFrom|].
  split; [unfold topLocations; rewrite (locationCounts_groups fs Hp);
          reflexivity|].
  split; [reflexivity|].
  split.
  - unfold ranked, Arr.slice0.
    rewrite length_map, length_firstn.
    rewrite (Permutation_length (sort_perm _ _)).
    rewrite (Permutation_length (entries_perm _)).
    unfold counts. now rewrite length_map.
  - unfold distinctPlaces. split; [apply firstSeen_NoDup|]. split.
    + intros p. rewrite firstSeen_In, in_map_iff. split.
      * intros (e & E & He). eauto.
      * intros (e & He & E). eauto.
    + intros fadd fdiv toFixed2 boundaries r. unfold stats.
      destruct (List.length fs =? 0)%nat; [discriminate|].
      intros H. injection H as <-. cbn [r_topLocations].
      unfold topLocations. rewrite (locationCounts_groups fs Hp). reflexivity.
Qed.

(** The ranking theorem at eight events of four places, two events
    each: the places "9" and "10", array indices, lead in numeric order,
    then "b" and the unknown place in the order of first occurrence. *)
Lemma topLocations_ranking_witness :
  plainPlaces tied /\
  topLocations tied =
    Some ["9 (2)"; "10 (2)"; "b (2)"; "Unknown (2)"]%string /\
  distinctPlaces tied = ["b"; "10"; "9"; "Unknown"]%string /\
  exists base ranking top,
    OwnKeyOrder
      (map (fun p => (p, occurrences p tied)) (distinctPlaces tied))
      base /\
    RankedFrom base ranking /\
    topLocations tied = Some top /\
    top = map entryText (firstn 5 ranking) /\
    List.length top = Nat.min 5 (List.length (distinctPlaces tied)) /\
    NoDup (distinctPlaces tied) /\
    (forall p, In p (distinctPlaces tied) <->
               exists e, In e tied /\ groupedUnder e = p) /\
    (forall fadd fdiv toFixed2 boundaries r,
       stats fadd fdiv toFixed2 tied boundaries = Some r ->
       r_topLocations r = Some top).
Proof.
  assert (P : plainPlaces tied) by (repeat constructor).
  split; [exact P|]. split; [reflexivity|]. split; [reflexivity|].
  exact (topLocations_ranking tied P).
Defined.

(* ------------------------------------------------------------------ *)
(** ** Further properties of the filter *)

Lemma append_empty (a b : string) :
  (a ++ b)%string = ""%string -> a = ""%string /\ b = ""%string.
Proof.
  destruct a; simpl; [auto | discriminate].
Qed.

Lemma filter_narrow {A : Type} (f g : A -> bool) (l : list A) :
  (forall x, f x = true -> g x = true) ->
  filter f (filter g l) = filter f l.
Proof.
  intros H. induction l as [|x l IH]; simpl; [reflexivity|].
  destruct (g x) eqn:G; simpl.
  - now rewrite IH.
  - destruct (f x) eqn:F; [|exact IH]. apply H in F. congruence.
Qed.

(** An event whose record has no [mag] property, or whose coordinates
    have no third entry, is kept by no criteria. *)
Theorem incomplete_event_never_kept (toLowerCase : string -> string)
  (c : Criteria) (earthquakes : list Feature) (e : Feature) :
  mag (properties e) = JS.VUndefined \/
  (List.length (coordinates (geometry e)) <= 2)%nat ->
  ~ In e (filteredEarthquakes toLowerCase c earthquakes).
Proof.
  intros H Hin. apply filter_In in Hin. destruct Hin as [_ K].
  apply keeps_ranges in K. destruct K as (M & D & _).
  apply within_ToNumber in M, D.
  destruct M as (q & Hq & _). destruct D as (q' & Hq' & _).
  destruct H as [H | H].
  - rewrite H in Hq. discriminate.
  - unfold at_index in Hq'. rewrite nth_overflow in Hq' by exact H.
    discriminate.
Qed.

(** The event without magnitude and with two coordinates. *)
Lemma incomplete_event_never_kept_witness :
  (mag (properties incomplete) = JS.VUndefined \/
   (List.length (coordinates (geometry incomplete)) <= 2)%nat) /\
  ~ In incomplete (filteredEarthquakes JS.asciiLower fullRange [incomplete]).
Proof.
  assert (H : mag (properties incomplete) = JS.VUndefined \/
              (List.length (coordinates (geometry incomplete)) <= 2)%nat)
    by (left; reflexivity).
  split; [exact H|].
  exact (incomplete_event_never_kept JS.asciiLower fullRange [incomplete]
           incomplete H).
Defined.

(** An event whose place is missing or empty is kept by no non-empty
    keyword, whenever [toLowerCase] maps the empty string to itself and
    no other string to it. *)
Theorem placeless_event_needs_empty_keyword (toLowerCase : string -> string)
  (c : Criteria) (earthquakes : list Feature) (e : Feature) :
  (forall s, toLowerCase s = ""%string <-> s = ""%string) ->
  placeFilter c <> ""%string ->
  place (properties e) = None \/ place (properties e) = Some ""%string ->
  ~ In e (filteredEarthquakes toLowerCase c earthquakes).
Proof.
  intros Hl Hk Hp Hin. apply filter_In in Hin. destruct Hin as [_ K].
  apply keeps_satisfies in K. destruct K as (_ & _ & [E | (pre & suf & E)]).
  - contradiction.
  - assert (P : place_or_empty e = ""%string).
    { unfold place_or_empty. destruct Hp as [-> | ->]; reflexivity. }
    rewrite P in E. rewrite (proj2 (Hl ""%string) eq_refl) in E.
    symmetry in E.
    apply append_empty in E. destruct E as [_ E].
    apply append_empty in E. destruct E as [E _].
    apply (proj1 (Hl _)) in E. contradiction.
Qed.

Lemma asciiLower_empty (s : string) :
  JS.asciiLower s = ""%string <-> s = ""%string.
Proof.
  destruct s; simpl; split; congruence.
Qed.

(** The keyword "a" and the event without place. *)
Lemma placeless_event_needs_empty_keyword_witness :
  (forall s, JS.asciiLower s = ""%string <-> s = ""%string) /\
  placeFilter (setPlaceFilter "a" fullRange) <> ""%string /\
  (place (properties placeless) = None \/
   place (properties placeless) = Some ""%string) /\
  ~ In placeless
       (filteredEarthquakes JS.asciiLower (setPlaceFilter "a" fullRange)
                            [placeless]).
Proof.
  assert (K : placeFilter (setPlaceFilter "a" fullRange) <> ""%string)
    by discriminate.
  assert (P : place (properties placeless) = None \/
              place (properties placeless) = Some ""%string)
    by (left; reflexivity).
  split; [exact asciiLower_empty|]. split; [exact K|]. split; [exact P|].
  exact (placeless_event_needs_empty_keyword JS.asciiLower _ [placeless]
           placeless asciiLower_empty K P).
Defined.

(** Filtering an already filtered collection with narrower sliders and
    the same keyword gives what the narrower sliders give on the
    original collection. *)
Theorem narrower_sliders_compose (toLowerCase : string -> string)
  (wide narrow : Criteria) (earthquakes : list Feature) :
  (minMagnitude wide <= minMagnitude narrow)%Q ->
  (maxMagnitude narrow <= maxMagnitude wide)%Q ->
  (minDepth wide <= minDepth narrow)%Q ->
  (maxDepth narrow <= maxDepth wide)%Q ->
  placeFilter narrow = placeFilter wide ->
  filteredEarthquakes toLowerCase narrow
    (filteredEarthquakes toLowerCase wide earthquakes) =
  filteredEarthquakes toLowerCase narrow earthquakes.
Proof.
  intros H1 H2 H3 H4 H5. apply filter_narrow. intros e.
  rewrite !keeps_satisfies. unfold satisfies, within. rewrite H5.
  intros [(q & Eq & L & U) [(v & Ev & d & Ed & Ld & Ud) P]].
  split; [|split; [|exact P]].
  - exists q. split; [exact Eq|]. split.
    + now apply Qle_trans with (minMagnitude narrow).
    + now apply Qle_trans with (maxMagnitude narrow).
  - exists v. split; [exact Ev|]. exists d. split; [exact Ed|]. split.
    + now apply Qle_trans with (minDepth narrow).
    + now apply Qle_trans with (maxDepth narrow).
Qed.

(** The full range narrowed to the strong, shallow events. *)
Lemma narrower_sliders_compose_witness :
  (minMagnitude fullRange <= minMagnitude strongShallow)%Q /\
  (maxMagnitude strongShallow <= maxMagnitude fullRange)%Q /\
  (minDepth fullRange <= minDepth strongShallow)%Q /\
  (maxDepth strongShallow <= maxDepth fullRange)%Q /\
  placeFilter strongShallow = placeFilter fullRange /\
  filteredEarthquakes JS.asciiLower strongShallow
    (filteredEarthquakes JS.asciiLower fullRange scenario) =
  filteredEarthquakes JS.asciiLower strongShallow scenario.
Proof.
  repeat (split; [first [discriminate | reflexivity]|]).
  apply (narrower_sliders_compose JS.asciiLower fullRange strongShallow scenario);
    try discriminate; reflexivity.
Defined.

(* ------------------------------------------------------------------ *)
(** ** Further properties of the report and of the map layer *)

Lemma max_loop_finite (ns : list JS.number) (h : Q) :
  Forall (fun n => exists q, n = JS.Fin q) ns ->
  exists q, max_loop (JS.Fin h) ns = JS.Fin q /\
            (h <= q)%Q /\
            (JS.Fin q = JS.Fin h \/ In (JS.Fin q) ns) /\
            (forall q', In (JS.Fin q') ns -> (q' <= q)%Q).
Proof.
  intros H. revert h. induction H as [|n ns (a & ->) _ IH]; intros h.
  - exists h. simpl. repeat split; auto using Qle_refl. tauto.
  - cbn [max_loop JS.num_lt]. destruct (JS.Qltb h a) eqn:E.
    + apply Qltb_true_iff in E.
      destruct (IH a) as (q & Hq & Hle & Hin & Hub). exists q.
      split; [exact Hq|]. split; [|split].
      * apply Qlt_le_weak in E. now apply Qle_trans with a.
      * right. destruct Hin as [-> | Hin]; [left; reflexivity | right; exact Hin].
      * intros q' [Eq | Hq']; [injection Eq as <-; exact Hle | now apply Hub].
    + apply Qltb_false_iff in E.
      destruct (IH h) as (q & Hq & Hle & Hin & Hub). exists q.
      split; [exact Hq|]. split; [exact Hle|]. split.
      * destruct Hin as [-> | Hin]; [left; reflexivity | right; right; exact Hin].
      * intros q' [Eq | Hq']; [injection Eq as <-|now apply Hub].
        now apply Qle_trans with h.
Qed.

Lemma min_loop_finite (ns : list JS.number) (h : Q) :
  Forall (fun n => exists q, n = JS.Fin q) ns ->
  exists q, min_loop (JS.Fin h) ns = JS.Fin q /\
            (q <= h)%Q /\
            (JS.Fin q = JS.Fin h \/ In (JS.Fin q) ns) /\
            (forall q', In (JS.Fin q') ns -> (q <= q')%Q).
Proof.
  intros H. revert h. induction H as [|n ns (a & ->) _ IH]; intros h.
  - exists h. simpl. repeat split; auto using Qle_refl. tauto.
  - cbn [min_loop JS.num_lt]. destruct (JS.Qltb a h) eqn:E.
    + apply Qltb_true_iff in E.
      destruct (IH a) as (q & Hq & Hle & Hin & Hub). exists q.
      split; [exact Hq|]. split; [|split].
      * apply Qlt_le_weak in E. now apply Qle_trans with a.
      * right. destruct Hin as [-> | Hin]; [left; reflexivity | right; exact Hin].
      * intros q' [Eq | Hq']; [injection Eq as <-; exact Hle | now apply Hub].
    + apply Qltb_false_iff in E.
      destruct (IH h) as (q & Hq & Hle & Hin & Hub). exists q.
      split; [exact Hq|]. split; [exact Hle|]. split.
      * destruct Hin as [-> | Hin]; [left; reflexivity | right; right; exact Hin].
      * intros q' [Eq | Hq']; [injection Eq as <-|now apply Hub].
        now apply Qle_trans with h.
Qed.

(** [Math.max] and [Math.min] over a non-empty list of values with
    finite readings return readings of the list that bound all of them. *)
Lemma extrema_finite (vs : list JS.value) :
  vs <> [] ->
  Forall (fun v => exists q, JS.ToNumber v = JS.Fin q) vs ->
  exists lo hi,
    Math_min vs = JS.Fin lo /\ Math_max vs = JS.Fin hi /\
    In (JS.Fin lo) (map JS.ToNumber vs) /\
    In (JS.Fin hi) (map JS.ToNumber vs) /\
    (forall q, In (JS.Fin q) (map JS.ToNumber vs) -> (lo <= q)%Q /\ (q <= hi)%Q).
Proof.
  intros Hne H. unfold Math_min, Math_max.
  assert (F : Forall (fun n => exists q, n = JS.Fin q) (map JS.ToNumber vs)).
  { apply Forall_map. exact H. }
  destruct (map JS.ToNumber vs) as [|n ns] eqn:E.
  { destruct vs; [congruence | discriminate]. }
  inversion F as [|? ? (a & ->) F']; subst.
  cbn [min_loop max_loop JS.num_lt].
  destruct (min_loop_finite ns a F') as (lo & Hlo & Lle & Lin & Lb).
  destruct (max_loop_finite ns a F') as (hi & Hhi & Hle & Hin & Hb).
  exists lo, hi. split; [exact Hlo|]. split; [exact Hhi|].
  split; [destruct Lin as [-> | I]; [left; reflexivity | right; exact I]|].
  split; [destruct Hin as [-> | I]; [left; reflexivity | right; exact I]|].
  intros q [Eq | Hq].
  - injection Eq as <-. split; assumption.
  - split; [now apply Lb | now apply Hb].
Qed.

(** The weakest and the strongest magnitude of a report are finite
    numbers, are the magnitudes of events of the filtered collection,
    bound the magnitude of every event of it, and lie between the two
    magnitude sliders. *)
Theorem magnitude_extrema_exact
  (toLowerCase : string -> string)
  (fadd fdiv : JS.number -> JS.number -> JS.number)
  (toFixed2 : JS.number -> string)
  (c : Criteria) (earthquakes : list Feature)
  (boundaries : option (list Boundary)) (r : Report) :
  stats fadd fdiv toFixed2 (filteredEarthquakes toLowerCase c earthquakes) boundaries = Some r ->
  exists lo hi,
    r_minMag r = JS.Fin lo /\ r_maxMag r = JS.Fin hi /\
    (exists e, In e (filteredEarthquakes toLowerCase c earthquakes) /\
               JS.ToNumber (mag (properties e)) = JS.Fin lo) /\
    (exists e, In e (filteredEarthquakes toLowerCase c earthquakes) /\
               JS.ToNumber (mag (properties e)) = JS.Fin hi) /\
    (forall e, In e (filteredEarthquakes toLowerCase c earthquakes) ->
               within (mag (properties e)) lo hi) /\
    (minMagnitude c <= lo)%Q /\ (lo <= hi)%Q /\ (hi <= maxMagnitude c)%Q.
Proof.
  unfold stats. set (fs := filteredEarthquakes toLowerCase c earthquakes).
  destruct (List.length fs =? 0)%nat eqn:L; [discriminate|].
  intros H. injection H as <-. cbn [r_minMag r_maxMag].
  assert (W : forall e, In e fs ->
                within (mag (properties e)) (minMagnitude c) (maxMagnitude c)).
  { intros e He. apply filter_In in He. destruct He as [_ K].
    apply keeps_ranges in K. apply K. }
  destruct (extrema_finite (magnitudes fs)) as (lo & hi & Hlo & Hhi & Ilo & Ihi & B).
  { destruct fs; [discriminate | discriminate]. }
  { unfold magnitudes. apply Forall_map, Forall_forall.
    intros e He. destruct (proj1 (within_ToNumber _ _ _) (W e He))
      as (q & Hq & _). eauto. }
  unfold magnitudes in Ilo, Ihi, B. rewrite map_map in Ilo, Ihi, B.
  apply in_map_iff in Ilo. destruct Ilo as (el & El & Hel).
  apply in_map_iff in Ihi. destruct Ihi as (eh & Eh & Heh).
  exists lo, hi. split; [exact Hlo|]. split; [exact Hhi|].
  split; [eauto|]. split; [eauto|]. split.
  - intros e He. apply within_ToNumber.
    destruct (proj1 (within_ToNumber _ _ _) (W e He)) as (q & Hq & _).
    exists q. split; [exact Hq|]. apply B. rewrite <- Hq.
    apply (in_map (fun x => JS.ToNumber (mag (properties x)))). exact He.
  - destruct (proj1 (within_ToNumber _ _ _) (W el Hel)) as (q & Hq & Hl & _).
    rewrite El in Hq. injection Hq as <-.
    destruct (proj1 (within_ToNumber _ _ _) (W eh Heh)) as (q & Hq & _ & Hu).
    rewrite Eh in Hq. injection Hq as <-.
    split; [exact Hl|]. split; [|exact Hu].
    apply (B hi). rewrite <- Eh.
    apply (in_map (fun x => JS.ToNumber (mag (properties x)))). exact Heh.
Qed.

(** The theorem at the scenario events under the full-range criteria. *)
Lemma magnitude_extrema_exact_witness :
  exists r lo hi,
    stats exact_add exact_div no_text (filteredEarthquakes JS.asciiLower fullRange scenario) None = Some r /\
    r_minMag r = JS.Fin lo /\ r_maxMag r = JS.Fin hi /\
    (minMagnitude fullRange <= lo)%Q /\ (lo <= hi)%Q /\ (hi <= maxMagnitude fullRange)%Q.
Proof.
  eexists.
  destruct (magnitude_extrema_exact JS.asciiLower exact_add exact_div no_text fullRange scenario
              None _ eq_refl) as (lo & hi & H1 & H2 & _ & _ & _ & H3 & H4 & H5).
  exists lo, hi. repeat split; assumption.
Defined.

(** The shallowest and the deepest depth of a report are finite numbers,
    are the depths of events of the filtered collection, bound the depth
    of every event of it, and lie between the two depth sliders. *)
Theorem depth_extrema_exact
  (toLowerCase : string -> string)
  (fadd fdiv : JS.number -> JS.number -> JS.number)
  (toFixed2 : JS.number -> string)
  (c : Criteria) (earthquakes : list Feature)
  (boundaries : option (list Boundary)) (r : Report) :
  stats fadd fdiv toFixed2 (filteredEarthquakes toLowerCase c earthquakes) boundaries = Some r ->
  exists lo hi,
    r_minDepth r = JS.Fin lo /\ r_maxDepth r = JS.Fin hi /\
    (exists e, In e (filteredEarthquakes toLowerCase c earthquakes) /\
               JS.ToNumber (at_index (coordinates (geometry e)) 2) = JS.Fin lo) /\
    (exists e, In e (filteredEarthquakes toLowerCase c earthquakes) /\
               JS.ToNumber (at_index (coordinates (geometry e)) 2) = JS.Fin hi) /\
    (forall e, In e (filteredEarthquakes toLowerCase c earthquakes) ->
               within (at_index (coordinates (geometry e)) 2) lo hi) /\
    (minDepth c <= lo)%Q /\ (lo <= hi)%Q /\ (hi <= maxDepth c)%Q.
Proof.
  unfold stats. set (fs := filteredEarthquakes toLowerCase c earthquakes).
  destruct (List.length fs =? 0)%nat eqn:L; [discriminate|].
  intros H. injection H as <-. cbn [r_minDepth r_maxDepth].
  assert (W : forall e, In e fs ->
                within (at_index (coordinates (geometry e)) 2) (minDepth c) (maxDepth c)).
  { intros e He. apply filter_In in He. destruct He as [_ K].
    apply keeps_ranges in K. apply K. }
  destruct (extrema_finite (depths fs)) as (lo & hi & Hlo & Hhi & Ilo & Ihi & B).
  { destruct fs; [discriminate | discriminate]. }
  { unfold depths. apply Forall_map, Forall_forall.
    intros e He. destruct (proj1 (within_ToNumber _ _ _) (W e He))
      as (q & Hq & _). eauto. }
  unfold depths in Ilo, Ihi, B. rewrite map_map in Ilo, Ihi, B.
  apply in_map_iff in Ilo. destruct Ilo as (el & El & Hel).
  apply in_map_iff in Ihi. destruct Ihi as (eh & Eh & Heh).
  exists lo, hi. split; [exact Hlo|]. split; [exact Hhi|].
  split; [eauto|]. split; [eauto|]. split.
  - intros e He. apply within_ToNumber.
    destruct (proj1 (within_ToNumber _ _ _) (W e He)) as (q & Hq & _).
    exists q. split; [exact Hq|]. apply B. rewrite <- Hq.
    apply (in_map (fun x => JS.ToNumber (at_index (coordinates (geometry x)) 2))).
    exact He.
  - destruct (proj1 (within_ToNumber _ _ _) (W el Hel)) as (q & Hq & Hl & _).
    rewrite El in Hq. injection Hq as <-.
    destruct (proj1 (within_ToNumber _ _ _) (W eh Heh)) as (q & Hq & _ & Hu).
    rewrite Eh in Hq. injection Hq as <-.
    split; [exact Hl|]. split; [|exact Hu].
    apply (B hi). rewrite <- Eh.
    apply (in_map (fun x => JS.ToNumber (at_index (coordinates (geometry x)) 2))).
    exact Heh.
Qed.

(** The theorem at the scenario events under the full-range criteria. *)
Lemma depth_extrema_exact_witness :
  exists r lo hi,
    stats exact_add exact_div no_text (filteredEarthquakes JS.asciiLower fullRange scenario) None = Some r /\
    r_minDepth r = JS.Fin lo /\ r_maxDepth r = JS.Fin hi /\
    (minDepth fullRange <= lo)%Q /\ (lo <= hi)%Q /\ (hi <= maxDepth fullRange)%Q.
Proof.
  eexists.
  destruct (depth_extrema_exact JS.asciiLower exact_add exact_div no_text fullRange scenario
              None _ eq_refl) as (lo & hi & H1 & H2 & _ & _ & _ & H3 & H4 & H5).
  exists lo, hi. repeat split; assumption.
Defined.

Lemma ge_negb_lt (v : JS.value) (q x : Q) :
  JS.ToNumber v = JS.Fin q ->
  JS.ge v (JS.VNum x) = negb (JS.lt v (JS.VNum x)).
Proof.
  intros H. unfold JS.ge, JS.lt. rewrite H. simpl.
  destruct (JS.Qltb q x); reflexivity.
Qed.

Lemma lt3_lt5 (v : JS.value) :
  JS.lt v (JS.VNum 3) = true -> JS.lt v (JS.VNum 5) = true.
Proof.
  unfold JS.lt. destruct (JS.ToNumber v) as [q| | |]; simpl; auto.
  destruct (JS.Qltb q 3) eqn:E; [|discriminate]. intros _.
  apply Qltb_true_iff in E.
  assert (L : (q < 5)%Q) by (apply Qlt_trans with 3%Q; [exact E | reflexivity]).
  apply Qltb_true_iff in L. now rewrite L.
Qed.

(** On a magnitude with a finite reading the colour names the band. *)
Lemma getColor_band (m : JS.value) (q : Q) :
  JS.ToNumber m = JS.Fin q ->
  String.eqb (getColor m) "red" = isHigh m /\
  String.eqb (getColor m) "orange" = isMed m /\
  String.eqb (getColor m) "green" = isLow m.
Proof.
  intros H. unfold getColor, isHigh, isMed, isLow.
  rewrite !(ge_negb_lt m q _ H).
  destruct (JS.lt m (JS.VNum 3)) eqn:E3.
  - rewrite (lt3_lt5 m E3). repeat split.
  - destruct (JS.lt m (JS.VNum 5)); repeat split.
Qed.

Lemma filtered_finite_mag (toLowerCase : string -> string) (c : Criteria)
  (earthquakes : list Feature) :
  Forall (fun e => exists q, JS.ToNumber (mag (properties e)) = JS.Fin q)
         (filteredEarthquakes toLowerCase c earthquakes).
Proof.
  apply Forall_forall. intros e He. apply filter_In in He.
  destruct He as [_ K]. apply keeps_ranges in K. destruct K as [M _].
  apply within_ToNumber in M. destruct M as (q & Hq & _). eauto.
Qed.

Lemma count_colour (fmul : JS.number -> JS.number -> JS.number)
  (colour : string) (band : JS.value -> bool) (fs : list Feature) :
  Forall (fun e => String.eqb (getColor (mag (properties e))) colour =
                   band (mag (properties e))) fs ->
  List.length (filter (fun k => String.eqb (c_color k) colour) (circles fmul fs)) =
  List.length (filter band (magnitudes fs)).
Proof.
  unfold circles, magnitudes. induction 1 as [|e fs He _ IH]; [reflexivity|].
  cbn [map filter]. cbn [circle c_color]. rewrite He.
  destruct (band (mag (properties e))); simpl; now rewrite IH.
Qed.

(** The map draws one circle per filtered event, and its colours agree
    with the report: the red circles are as many as the strong events
    counted, the orange ones as the moderate, the green ones as the
    minor. *)
Theorem circle_colours_match_report
  (toLowerCase : string -> string)
  (fmul : JS.number -> JS.number -> JS.number)
  (c : Criteria) (earthquakes : list Feature) :
  List.length (circles fmul (filteredEarthquakes toLowerCase c earthquakes)) =
    List.length (filteredEarthquakes toLowerCase c earthquakes) /\
  List.length (filter (fun k => String.eqb (c_color k) "red")
                 (circles fmul (filteredEarthquakes toLowerCase c earthquakes))) =
    highMagCount (filteredEarthquakes toLowerCase c earthquakes) /\
  List.length (filter (fun k => String.eqb (c_color k) "orange")
                 (circles fmul (filteredEarthquakes toLowerCase c earthquakes))) =
    medMagCount (filteredEarthquakes toLowerCase c earthquakes) /\
  List.length (filter (fun k => String.eqb (c_color k) "green")
                 (circles fmul (filteredEarthquakes toLowerCase c earthquakes))) =
    lowMagCount (filteredEarthquakes toLowerCase c earthquakes).
Proof.
  assert (F := filtered_finite_mag toLowerCase c earthquakes).
  split; [apply length_map|].
  unfold highMagCount, medMagCount, lowMagCount.
  repeat split; apply count_colour;
    (eapply Forall_impl; [|exact F]); intros e (q & Hq);
    apply (getColor_band _ q Hq).
Qed.

(** Among the circles of the filtered events, the ones that pulse and
    are drawn at opacity 0.8 are exactly the red ones; the others have
    no class and opacity 0.5. *)
Theorem pulsing_circles_are_red
  (toLowerCase : string -> string)
  (fmul : JS.number -> JS.number -> JS.number)
  (c : Criteria) (earthquakes : list Feature) :
  Forall (fun k =>
            (c_color k = "red"%string /\
             c_className k = "pulsing-circle"%string /\
             c_fillOpacity k = 8 # 10) \/
            (c_color k <> "red"%string /\
             c_className k = ""%string /\
             c_fillOpacity k = 5 # 10))
         (circles fmul (filteredEarthquakes toLowerCase c earthquakes)).
Proof.
  unfold circles. apply Forall_map.
  eapply Forall_impl; [|exact (filtered_finite_mag toLowerCase c earthquakes)].
  intros e (q & Hq). cbn [circle c_color c_className c_fillOpacity].
  destruct (getColor_band _ q Hq) as (R & _ & _). unfold isHigh in R.
  destruct (JS.ge (mag (properties e)) (JS.VNum 5)).
  - left. apply String.eqb_eq in R. auto.
  - right. apply String.eqb_neq in R. auto.
Qed.

(** When the product of two finite doubles is not NaN, every circle of a
    filtered event has a radius that is a number and is not below
    10000. *)
Theorem circle_radius_floor
  (toLowerCase : string -> string)
  (fmul : JS.number -> JS.number -> JS.number)
  (c : Criteria) (earthquakes : list Feature) :
  (forall a b, fmul (JS.Fin a) (JS.Fin b) <> JS.NaN) ->
  Forall (fun k => c_radius k <> JS.NaN /\
                   JS.num_lt (c_radius k) (JS.Fin 10000) = Some false)
         (circles fmul (filteredEarthquakes toLowerCase c earthquakes)).
Proof.
  intros Hm. unfold circles. apply Forall_map.
  eapply Forall_impl; [|exact (filtered_finite_mag toLowerCase c earthquakes)].
  intros e (q & Hq). cbn [circle c_radius]. rewrite Hq.
  specialize (Hm q 20000%Q).
  destruct (fmul (JS.Fin q) (JS.Fin 20000)) as [a| | |]; [|congruence| |].
  - cbn [max_loop JS.num_lt]. destruct (JS.Qltb a 10000) eqn:E.
    + split; [discriminate | reflexivity].
    + split; [discriminate|]. simpl. now rewrite E.
  - split; [discriminate | reflexivity].
  - split; [discriminate | reflexivity].
Qed.

(** The theorem at the exact product and the scenario events. *)
Lemma circle_radius_floor_witness :
  (forall a b, exact_mul (JS.Fin a) (JS.Fin b) <> JS.NaN) /\
  Forall (fun k => c_radius k <> JS.NaN /\
                   JS.num_lt (c_radius k) (JS.Fin 10000) = Some false)
         (circles exact_mul (filteredEarthquakes JS.asciiLower fullRange scenario)).
Proof.
  assert (H : forall a b, exact_mul (JS.Fin a) (JS.Fin b) <> JS.NaN)
    by (intros a b; discriminate).
  split; [exact H|].
  exact (circle_radius_floor JS.asciiLower exact_mul fullRange scenario H).
Defined.

(** *** The two counting objects *)

Lemma sumCounts_set (o : Obj.t nat) (k : string) (v : nat) :
  (sumCounts (Obj.set o k v) + stored o k = sumCounts o + v)%nat.
Proof.
  unfold sumCounts, stored. induction o as [|[k' n] o IH]; simpl.
  - lia.
  - destruct (String.eqb k' k); simpl; lia.
Qed.

Lemma tally_sum (ks : list string) (o o' : Obj.t nat) :
  tally o ks = Some o' ->
  sumCounts o' = (sumCounts o + List.length ks)%nat.
Proof.
  revert o. induction ks as [|k ks IH]; intros o; simpl.
  - intros H. injection H as <-. lia.
  - destruct (bump o k) as [o1|] eqn:B; [|discriminate].
    intros H. rewrite (IH _ H). apply bump_spec in B. subst o1.
    pose proof (sumCounts_set o k (stored o k + 1)). lia.
Qed.

(** When no place names a member of [Object.prototype], the counting
    object holds one count per place that occurs and none for the
    others, the count of a place is the number of its events ("Unknown"
    standing for an empty or missing place), and the counts add up to
    the number of events. *)
Theorem place_counts_cover_events (fs : list Feature) :
  plainPlaces fs ->
  exists counts,
    locationCounts fs = Some counts /\
    sumCounts counts = List.length fs /\
    (forall p, Obj.own counts p =
               if (occurrences p fs =? 0)%nat then None
               else Some (occurrences p fs)).
Proof.
  intros Hp. unfold locationCounts.
  destruct (tally_plain (map placeKey fs) []) as (o & Ho).
  { now apply plainPlaces_keys. }
  exists o. split; [exact Ho|]. split.
  - rewrite (tally_sum _ _ _ Ho). simpl. now rewrite length_map.
  - intros p. pose proof (tally_stored _ _ _ p Ho) as S.
    simpl in S. rewrite <- occurrences_count in S.
    assert (K : map fst o = firstSeen (map placeKey fs)).
    { rewrite (tally_keys _ _ _ Ho). simpl.
      apply forallb_filter_id. apply forallb_forall. reflexivity. }
    destruct (occurrences p fs =? 0)%nat eqn:Z.
    + apply Nat.eqb_eq in Z. apply own_None_iff. rewrite K, firstSeen_In.
      rewrite occurrences_count in Z. now apply count_occ_not_In in Z.
    + apply Nat.eqb_neq in Z. unfold stored in S.
      destruct (Obj.own o p) as [n|] eqn:E; [now rewrite S | lia].
Qed.

(** The theorem at five events: the places "a", "7", none, "a" and the
    empty place. *)
Lemma place_counts_cover_events_witness :
  plainPlaces assorted /\
  occurrences "Unknown" assorted = 2%nat /\
  exists counts,
    locationCounts assorted = Some counts /\
    sumCounts counts = 5%nat /\
    Obj.own counts "Unknown" = Some 2%nat /\
    Obj.own counts "a" = Some 2%nat /\
    Obj.own counts "7" = Some 1%nat /\
    Obj.own counts "b" = None.
Proof.
  assert (P : plainPlaces assorted) by (repeat constructor).
  split; [exact P|]. split; [reflexivity|].
  destruct (place_counts_cover_events assorted P) as (counts & H & S & O).
  exists counts. split; [exact H|]. split; [exact S|].
  repeat split; apply O.
Defined.

(* ------------------------------------------------------------------ *)
(** ** Further properties of the boundaries and of the session *)

Lemma threeKinds_not_inherited (k : string) :
  In k threeKinds -> Obj.inherited k = false.
Proof.
  simpl. intros [<- | [<- | [<- | []]]]; reflexivity.
Qed.

Lemma count_kind (kind : string) (features : list Boundary) :
  Forall classified features ->
  count_occ string_dec (map (fun f => keyOf (boundaryType f)) features) kind =
  boundariesOf kind features.
Proof.
  unfold boundariesOf.
  induction 1 as [|b bs ((k & _ & Hk) & _) _ IH]; [reflexivity|].
  cbn [map count_occ filter]. rewrite Hk. cbn [keyOf].
  destruct (string_dec k kind) as [E|N];
    destruct (String.eqb_spec k kind) as [E'|N']; try contradiction;
    cbn [List.length]; now rewrite IH.
Qed.

(** In every world that a session reaches with the boundaries loaded,
    and for a product that triples like the product of doubles, the
    tally of the report has at most three entries, each under one of the
    three kinds; the count stored under a kind is the number of loaded
    boundaries of that kind; and the counts add up to the number of
    boundaries. *)
Theorem plate_counts_cover_boundaries
  (fmul : JS.number -> JS.number -> JS.number)
  (w : World) (features : list Boundary) :
  TriplesLikeDoubles fmul ->
  reachable fmul w ->
  plates (ui w) = Some features ->
  exists counts,
    plateCounts (plates (ui w)) = Some counts /\
    sumCounts counts = List.length features /\
    (forall kind, stored counts kind = boundariesOf kind features) /\
    Forall (fun entry => In (fst entry) threeKinds) counts /\
    (List.length counts <= 3)%nat.
Proof.
  intros Hm Hw Hp. pose proof (loaded_classified fmul w Hm Hw features Hp) as C.
  rewrite Hp. unfold plateCounts.
  set (ks := map (fun f => keyOf (boundaryType f)) features).
  assert (T : Forall (fun k => In k threeKinds) ks).
  { unfold ks. apply Forall_map. eapply Forall_impl; [|exact C].
    intros b ((k & Hin & Hk) & _). now rewrite Hk. }
  destruct (tally_plain ks []) as (o & Ho).
  { eapply Forall_impl; [|exact T]. exact threeKinds_not_inherited. }
  exists o. split; [exact Ho|].
  assert (K : map fst o = firstSeen ks).
  { rewrite (tally_keys _ _ _ Ho). simpl.
    apply forallb_filter_id. apply forallb_forall. reflexivity. }
  assert (I : forall k, In k (map fst o) -> In k threeKinds).
  { intros k Hk. rewrite K in Hk. apply (proj1 (firstSeen_In _ _)) in Hk.
    rewrite Forall_forall in T. now apply T. }
  split; [|split; [|split]].
  - rewrite (tally_sum _ _ _ Ho). simpl. unfold ks. now rewrite length_map.
  - intros kind. rewrite (tally_stored _ _ _ kind Ho). simpl.
    unfold ks. now apply count_kind.
  - apply Forall_forall. intros entry He. apply I.
    now apply (in_map fst).
  - rewrite <- (length_map fst).
    change 3%nat with (List.length threeKinds).
    apply NoDup_incl_length; [|exact I].
    rewrite K. apply firstSeen_NoDup.
Qed.

Lemma platesShown_reachable : reachable exact_mul platesShown.
Proof.
  apply (reachable_step exact_mul mounted
           (PlatesReply (Resolved [ridge; trench]) halves));
    [exact (reachable_mounted exact_mul)|].
  split; [simpl; auto | exact halves_unit_interval].
Qed.

(** The theorem at the product of doubles and the world in which two
    boundaries have been loaded with the draw 0.3333333333333333. *)
Lemma plate_counts_cover_boundaries_witness :
  TriplesLikeDoubles Double.mul /\
  reachable Double.mul thirdsShown /\
  exists counts,
    plateCounts (plates (ui thirdsShown)) = Some counts /\
    sumCounts counts = 2%nat /\
    stored counts "Divergent" = 2%nat /\
    stored counts "Convergent" = 0%nat /\
    Forall (fun entry => In (fst entry) threeKinds) counts /\
    (List.length counts <= 3)%nat.
Proof.
  split; [exact double_mul_triples|]. split; [exact thirdsShown_reachable|].
  destruct (plate_counts_cover_boundaries Double.mul thirdsShown
              [mkBoundary ridge (Some "Divergent"%string);
               mkBoundary trench (Some "Divergent"%string)]
              double_mul_triples thirdsShown_reachable)
    as (counts & H & S & K & T & L); [vm_compute; reflexivity|].
  exists counts. split; [exact H|]. split; [exact S|].
  split; [exact (K "Divergent"%string)|].
  split; [exact (K "Convergent"%string)|]. split; [exact T | exact L].
Defined.

Lemma Request_eqb_eq (a b : Request) : Request_eqb a b = true -> a = b.
Proof.
  destruct a, b; simpl; try discriminate; try reflexivity;
    intros H; apply String.eqb_eq in H; now subst.
Qed.

Lemma settle_In (r x : Request) (l : list Request) :
  In x (settle r l) -> In x l.
Proof.
  induction l as [|y l IH]; simpl; [tauto|].
  destruct (Request_eqb y r); simpl; tauto.
Qed.

Lemma settle_other (r : Request) (l : list Request) :
  isGetPlates r = false ->
  filter isGetPlates (settle r l) = filter isGetPlates l.
Proof.
  intros H. induction l as [|y l IH]; simpl; [reflexivity|].
  destruct (Request_eqb y r) eqn:E.
  - apply Request_eqb_eq in E. subst y. now rewrite H.
  - simpl. now rewrite IH.
Qed.

Lemma settle_plates (l : list Request) :
  In GetPlates l ->
  S (List.length (filter isGetPlates (settle GetPlates l))) =
  List.length (filter isGetPlates l).
Proof.
  induction l as [|y l IH]; simpl; [tauto|].
  intros [-> | H]; [reflexivity|].
  destruct y; simpl; auto.
Qed.

Lemma pending_issue (r : Request) (w : World) :
  isGetPlates r = false -> pendingPlates (issue r w) = pendingPlates w.
Proof.
  intros H. unfold pendingPlates. simpl. rewrite filter_app. simpl.
  rewrite H. now rewrite app_nil_r.
Qed.

(** What an event other than the end of [fetchPlates] does to the
    pending [fetchPlates] calls: nothing. *)
Lemma pending_handle (fmul : JS.number -> JS.number -> JS.number)
  (ev : Event) (w : World) :
  (forall r random, ev <> PlatesReply r random) ->
  pendingPlates (handle fmul ev w) = pendingPlates w.
Proof.
  intros N. destruct ev; simpl; try reflexivity.
  - unfold changeTimeRange. destruct (String.eqb v (timeRange (ui w)));
      [reflexivity|]. unfold fetchEarthquakes. now rewrite pending_issue.
  - unfold handleSearch. destruct (negb (JS.truthy (searchLocation (ui w))));
      [reflexivity|]. now rewrite pending_issue.
  - unfold earthquakesReply, pendingPlates.
    destruct r; simpl; now rewrite settle_other.
  - exfalso. now apply (N r random).
  - unfold placeReply, pendingPlates.
    destruct r as [[|first rest]|]; simpl; now rewrite settle_other.
Qed.

(** [fetchPlates] is in flight at most once, and never once the
    boundaries are there. *)
Lemma plates_fetched_once (fmul : JS.number -> JS.number -> JS.number)
  (w : World) :
  reachable fmul w ->
  (pendingPlates w <= 1)%nat /\
  (plates (ui w) <> None -> pendingPlates w = 0%nat).
Proof.
  induction 1 as [|w ev Hw [IH1 IH2] Hev].
  - split; [reflexivity | intros H; now elim H].
  - destruct ev;
      try (rewrite (pending_handle fmul) by discriminate;
           match goal with
           | |- context [handle fmul ?e w] =>
               destruct (plates_handle fmul e w) as [E | (fs & rnd & E & _)]
           end;
           [rewrite E; split; assumption | discriminate]).
    destruct Hev as [Hin _].
    assert (P : pendingPlates (handle fmul (PlatesReply r random) w) = 0%nat).
    { pose proof (settle_plates _ Hin) as S.
      unfold pendingPlates in *. destruct r; simpl; lia. }
    rewrite P. split; [lia | reflexivity].
Qed.

(** Once the boundaries are loaded, nothing that can happen in the
    session changes them: the types drawn at load time stay. *)
Theorem loaded_boundaries_are_stable
  (fmul : JS.number -> JS.number -> JS.number)
  (w : World) (features : list Boundary) (ev : Event) :
  reachable fmul w ->
  plates (ui w) = Some features ->
  possible ev w ->
  plates (ui (handle fmul ev w)) = Some features.
Proof.
  intros Hw Hp Hev. destruct (plates_fetched_once fmul w Hw) as [_ Z].
  assert (P : pendingPlates w = 0%nat) by (apply Z; congruence).
  destruct (plates_handle fmul ev w) as [E | (fs & random & -> & _)];
    [congruence|].
  destruct Hev as [Hin _]. exfalso.
  pose proof (settle_plates _ Hin) as S. unfold pendingPlates in P. lia.
Qed.

(** The theorem at the loaded world and a new selection of the window. *)
Lemma loaded_boundaries_are_stable_witness :
  reachable exact_mul platesShown /\
  possible (TimeRangeSelect "all_week") platesShown /\
  plates (ui (handle exact_mul (TimeRangeSelect "all_week") platesShown)) =
    Some (decorate exact_mul halves 0 [ridge; trench]).
Proof.
  split; [exact platesShown_reachable|]. split; [exact I|].
  exact (loaded_boundaries_are_stable exact_mul platesShown _
           (TimeRangeSelect "all_week") platesShown_reachable eq_refl I).
Defined.

(** No request with an empty query is ever in flight to the geocoder. *)
Theorem no_empty_query_in_flight
  (fmul : JS.number -> JS.number -> JS.number)
  (w : World) (query : string) :
  reachable fmul w ->
  In (GetPlace query) (inflight w) ->
  query <> ""%string.
Proof.
  intros Hw. revert query. induction Hw as [|w ev Hw IH Hev]; intros query.
  - simpl. intros [H | [H | []]]; discriminate.
  - destruct ev; simpl; try apply IH.
    + unfold changeTimeRange. destruct (String.eqb v (timeRange (ui w)));
        [apply IH|]. simpl. rewrite in_app_iff. simpl.
      intros [H | [H | []]]; [now apply IH | discriminate].
    + unfold handleSearch.
      destruct (searchLocation (ui w)) as [|a s] eqn:E; simpl; [apply IH|].
      rewrite in_app_iff. simpl.
      intros [H | [H | []]]; [now apply IH|]. injection H as <-. discriminate.
    + unfold earthquakesReply. destruct r; simpl;
        intros H; apply settle_In in H; now apply IH.
    + unfold platesReply. destruct r; simpl;
        intros H; apply settle_In in H; now apply IH.
    + unfold placeReply. destruct r as [[|first rest]|]; simpl;
        intros H; apply settle_In in H; now apply IH.
Qed.

(** The theorem at the world in which the query of one space was sent. *)
Lemma no_empty_query_in_flight_witness :
  reachable exact_mul (handleSearch spaceTyped) /\
  In (GetPlace " ") (inflight (handleSearch spaceTyped)) /\
  " "%string <> ""%string.
Proof.
  assert (R : reachable exact_mul (handleSearch spaceTyped)).
  { apply (reachable_step exact_mul spaceTyped GoClick); [|exact I].
    apply (reachable_step exact_mul mounted (SearchLocationInput " "));
      [exact (reachable_mounted exact_mul) | exact I]. }
  assert (H : In (GetPlace " ") (inflight (handleSearch spaceTyped)))
    by (simpl; auto).
  split; [exact R|]. split; [exact H|].
  exact (no_empty_query_in_flight exact_mul _ " " R H).
Defined.





(** A request for the events feed is issued by one thing only, the
    selection of a time window that differs from the current one: when a
    request for [range] is in flight after an event and was not before,
    the event is the selection of [range], [range] was not the selected
    window, and it is the selected window afterwards.  Sliders, keyword,
    search and replies start no fetch of events. *)
Theorem refetch_only_on_window_change
  (fmul : JS.number -> JS.number -> JS.number)
  (ev : Event) (w : World) (range : string) :
  ~ In (GetEarthquakes range) (inflight w) ->
  In (GetEarthquakes range) (inflight (handle fmul ev w)) ->
  ev = TimeRangeSelect range /\
  range <> timeRange (ui w) /\
  timeRange (ui (handle fmul ev w)) = range.
Proof.
  intros Hn. destruct ev; simpl; try (intros H; now elim Hn).
  - unfold changeTimeRange. destruct (String.eqb_spec v (timeRange (ui w))) as [E|N].
    + intros H; now elim Hn.
    + simpl. rewrite in_app_iff. simpl.
      intros [H | [H | []]]; [now elim Hn|]. injection H as ->. auto.
  - unfold handleSearch.
    destruct (negb (JS.truthy (searchLocation (ui w)))); simpl.
    + intros H; now elim Hn.
    + rewrite in_app_iff. simpl.
      intros [H | [H | []]]; [now elim Hn | discriminate].
  - unfold earthquakesReply. destruct r; simpl;
      intros H; apply settle_In in H; now elim Hn.
  - unfold platesReply. destruct r; simpl;
      intros H; apply settle_In in H; now elim Hn.
  - unfold placeReply. destruct r as [[|first rest]|]; simpl;
      intros H; apply settle_In in H; now elim Hn.
Qed.

(** The theorem at the selection of the week in the mounted component. *)
Lemma refetch_only_on_window_change_witness :
  ~ In (GetEarthquakes "all_week") (inflight mounted) /\
  In (GetEarthquakes "all_week") (inflight weekSelected) /\
  timeRange (ui weekSelected) = "all_week"%string.
Proof.
  assert (N : ~ In (GetEarthquakes "all_week") (inflight mounted)).
  { simpl. intros [H | [H | []]]; discriminate. }
  assert (H : In (GetEarthquakes "all_week")
                 (inflight (handle exact_mul (TimeRangeSelect "all_week") mounted)))
    by (simpl; auto).
  split; [exact N|]. split; [exact H|].
  exact (proj2 (proj2 (refetch_only_on_window_change exact_mul _ mounted _ N H))).
Defined.

(** *** The label of the time window *)

Lemma startsWith_app (pat rest : string) :
  JS.startsWith (pat ++ rest) pat = true.
Proof.
  apply startsWith_spec. eauto.
Qed.

Lemma skip_app (pat rest : string) :
  Str.skip (String.length pat) (pat ++ rest) = rest.
Proof.
  induction pat as [|c pat IH]; simpl; [reflexivity | exact IH].
Qed.

Lemma replace_absent (s pat rep : string) :
  JS.includes s pat = false -> Str.replace s pat rep = s.
Proof.
  induction s as [|c s IH]; cbn [JS.includes Str.replace];
    intros H; apply orb_false_iff in H; destruct H as [H1 H2]; rewrite H1.
  - reflexivity.
  - now rewrite IH.
Qed.

(** The label of the report replaces a leading "all_" by "Last " and
    keeps the rest of the value; a value in which "all_" does not occur
    is shown as it is. *)
Theorem timeRangeLabel_spec (range : string) :
  timeRangeLabel ("all_" ++ range) = ("Last " ++ range)%string /\
  (JS.includes range "all_" = false -> timeRangeLabel range = range).
Proof.
  split.
  - unfold timeRangeLabel.
    destruct range; reflexivity.
  - apply replace_absent.
Qed.

(** The theorem at the value "week". *)
Lemma timeRangeLabel_spec_witness :
  timeRangeLabel ("all_" ++ "week") = "Last week"%string /\
  JS.includes "week" "all_" = false /\
  timeRangeLabel "week" = "week"%string.
Proof.
  destruct (timeRangeLabel_spec "week") as [H1 H2].
  split; [exact H1|]. split; [reflexivity | exact (H2 eq_refl)].
Defined.
